(** * Addition service: validation and aggregation pipeline of [add.py]

    A shallow embedding of [NumberValidator], [ListSource], [FileSource] and
    [AdditionService], together with the part of Python's [str] and
    [decimal] that these classes call, and the properties of the pipeline.

    Conventions.
    - A Python [str] is a [string]; a character is a code point below 256.
    - A [decimal.Decimal] is a sign, a coefficient and an exponent, or an
      infinity, or a NaN; operations follow the default context of the
      [decimal] module (28 digits, ROUND_HALF_EVEN, Emax = 999999,
      Emin = -999999, traps on InvalidOperation, DivisionByZero, Overflow).
    - [time.time()], the filesystem and the formatting of floats belong to
      the runtime and are taken from a [World] record.
    - Mutable state (the validator cache, the log, the number of clock
      readings) is threaded through a state-and-exception monad. *)

From Stdlib Require Import ZArith QArith Qround Qabs Qpower Lia Ascii String List.
From stdpp Require Import gmap strings list pretty.

Local Open Scope Z_scope.

(** ** Python strings *)

Module PyStr.

Definition chars (s : string) : list ascii := list_ascii_of_string s.
Definition of_chars (l : list ascii) : string := string_of_list_ascii l.

(** [str.isspace] on one character. *)
Definition is_space (c : ascii) : bool :=
  let n := Z.of_N (N_of_ascii c) in
  ((9 <=? n) && (n <=? 13)) || ((28 <=? n) && (n <=? 32))
  || (n =? 133) || (n =? 160).

Fixpoint lstrip_chars (l : list ascii) : list ascii :=
  match l with
  | c :: l' => if is_space c then lstrip_chars l' else l
  | [] => []
  end.

Definition strip_chars (l : list ascii) : list ascii :=
  rev (lstrip_chars (rev (lstrip_chars l))).

(** [s.strip()] *)
Definition strip (s : string) : string := of_chars (strip_chars (chars s)).

(** [str.lower] on one character: A-Z, and the upper-case letters of the
    Latin-1 block. *)
Definition lower_char (c : ascii) : ascii :=
  let n := Z.of_N (N_of_ascii c) in
  if ((65 <=? n) && (n <=? 90))
     || ((192 <=? n) && (n <=? 222) && negb (n =? 215))
  then ascii_of_N (Z.to_N (n + 32)) else c.

Definition lower_chars (l : list ascii) : list ascii := map lower_char l.

(** [s.lower()] *)
Definition lower (s : string) : string := of_chars (lower_chars (chars s)).

Definition mem_char (c : ascii) (l : list ascii) : bool :=
  existsb (Ascii.eqb c) l.

(** [c in s] for a one-character [c] *)
Definition contains (c : ascii) (s : string) : bool := mem_char c (chars s).

(** [s.replace(c, EmptyString)] for a one-character [c] *)
Definition remove_char (c : ascii) (l : list ascii) : list ascii :=
  List.filter (fun x => negb (Ascii.eqb c x)) l.

(** [sep.join(l)] *)
Fixpoint join (sep : string) (l : list string) : string :=
  match l with
  | [] => EmptyString
  | [s] => s
  | s :: l' => s +:+ sep +:+ join sep l'
  end.

(** [s.split(c)] for a one-character separator *)
Fixpoint split_chars (c : ascii) (cur : list ascii) (l : list ascii)
  : list (list ascii) :=
  match l with
  | [] => [rev cur]
  | x :: l' =>
      if Ascii.eqb c x then rev cur :: split_chars c [] l'
      else split_chars c (x :: cur) l'
  end.

Definition split (c : ascii) (s : string) : list string :=
  map of_chars (split_chars c [] (chars s)).

(** [s.endswith(t)] *)
Definition endswith (t s : string) : bool :=
  let n := String.length s in
  let k := String.length t in
  (k <=? n)%nat && String.eqb (String.substring (n - k) k s) t.

(** [str.upper] on one character, for the ASCII letters: the program
    upper-cases the values of [OperationStatus] only. *)
Definition upper_char (c : ascii) : ascii :=
  let n := Z.of_N (N_of_ascii c) in
  if (97 <=? n) && (n <=? 122) then ascii_of_N (Z.to_N (n - 32)) else c.

(** [s.upper()] *)
Definition upper (s : string) : string :=
  of_chars (map upper_char (chars s)).

(** [s * n] *)
Fixpoint repeat (s : string) (n : nat) : string :=
  match n with
  | O => EmptyString
  | S n' => s +:+ repeat s n'
  end.

(** [s.count(c)] for a one-character [c] *)
Definition count_char (c : ascii) (l : list ascii) : nat :=
  length (List.filter (Ascii.eqb c) l).

End PyStr.

(** ** Results of fallible operations *)

Inductive res (E A : Type) : Type :=
| Ok (a : A)
| Err (e : E).
Arguments Ok {E A} a.
Arguments Err {E A} e.

(** ** The [decimal] module *)

Module decimal.

(** A finite number is [(-1)^sign * coeff * 10^exp] with [0 <= coeff]. *)
Inductive Decimal : Type :=
| Finite (sign : bool) (coeff : Z) (exp : Z)
| Infinity (sign : bool)
| NaN (sign : bool) (signaling : bool) (payload : Z).

(** The trapped signals that the operations used here can raise. *)
Inductive signal : Type := InvalidOperation | Overflow.

(** The default context. *)
Definition prec : Z := 28.
Definition Emax : Z := 999999.
Definition Emin : Z := -999999.
Definition Etiny : Z := Emin - prec + 1.
Definition Etop : Z := Emax - prec + 1.

Definition is_zero (d : Decimal) : bool :=
  match d with Finite _ c _ => c =? 0 | _ => false end.

Definition is_finite (d : Decimal) : bool :=
  match d with Finite _ _ _ => true | _ => false end.

(** Number of decimal digits of a non-negative integer ([len(str(n))]). *)
Fixpoint ndigits_aux (fuel : nat) (n : Z) : Z :=
  match fuel with
  | O => 1
  | S f => if n <? 10 then 1 else 1 + ndigits_aux f (n / 10)
  end.

Definition ndigits (n : Z) : Z := ndigits_aux (Z.to_nat (Z.log2 n)) n.

(** [Decimal.adjusted()] of a finite number. *)
Definition adjusted (c e : Z) : Z := ndigits c + e - 1.

(** Dropping the last [k] digits of [c]: the kept digits and whether the
    rounding mode increments them. *)
Definition round_half_even (c k : Z) : Z :=
  let q := c / 10 ^ k in
  let r := c mod 10 ^ k in
  if (2 * r >? 10 ^ k) || ((2 * r =? 10 ^ k) && Z.odd q) then q + 1 else q.

Definition round_half_up (c k : Z) : Z :=
  let q := c / 10 ^ k in
  let r := c mod 10 ^ k in
  if 2 * r >=? 10 ^ k then q + 1 else q.

(** A NaN keeps at most [prec] digits of payload. *)
Definition _fix_nan (s sg : bool) (p : Z) : Decimal :=
  NaN s sg (p mod 10 ^ prec).

(** [Decimal._fix]: round a result to the context. *)
Definition _fix (d : Decimal) : res signal Decimal :=
  match d with
  | NaN s sg p => Ok (_fix_nan s sg p)
  | Infinity _ => Ok d
  | Finite s c e =>
      if c =? 0 then Ok (Finite s 0 (Z.min (Z.max e Etiny) Emax))
      else
        let exp_min0 := ndigits c + e - prec in
        if exp_min0 >? Etop then Err Overflow
        else
          let exp_min := Z.max exp_min0 Etiny in
          if e <? exp_min then
            let q := round_half_even c (exp_min - e) in
            let '(coeff, exp_min') :=
              if ndigits q >? prec
              then (q / 10, exp_min + 1) else (q, exp_min) in
            if exp_min' >? Etop then Err Overflow
            else Ok (Finite s coeff exp_min')
          else Ok d
  end.

Definition signed (s : bool) (c : Z) : Z := if s then - c else c.

(** [Decimal.__add__] *)
Definition add (a b : Decimal) : res signal Decimal :=
  match a, b with
  | NaN _ true _, _ => Err InvalidOperation
  | _, NaN _ true _ => Err InvalidOperation
  | NaN s sg p, _ => Ok (_fix_nan s sg p)
  | _, NaN s sg p => Ok (_fix_nan s sg p)
  | Infinity sa, Infinity sb =>
      if Bool.eqb sa sb then Ok a else Err InvalidOperation
  | Infinity _, _ => Ok a
  | _, Infinity _ => Ok b
  | Finite sa ca ea, Finite sb cb eb =>
      let e := Z.min ea eb in
      let total := signed sa ca * 10 ^ (ea - e) + signed sb cb * 10 ^ (eb - e) in
      if total =? 0 then
        _fix (Finite (if (ca =? 0) && (cb =? 0) then sa && sb else false) 0 e)
      else _fix (Finite (total <? 0) (Z.abs total) e)
  end.

(** [Decimal._rescale(exp, ROUND_HALF_UP)] of a finite number. *)
Definition _rescale (s : bool) (c e : Z) (target : Z) : Decimal :=
  if c =? 0 then Finite s 0 target
  else if e >=? target then Finite s (c * 10 ^ (e - target)) target
  else Finite s (round_half_up c (target - e)) target.

(** [Decimal.quantize(q, rounding=ROUND_HALF_UP)] where [q] is finite
    with exponent [target]. *)
Definition quantize (d : Decimal) (target : Z) : res signal Decimal :=
  match d with
  | NaN _ true _ => Err InvalidOperation
  | NaN s sg p => Ok (_fix_nan s sg p)
  | Infinity _ => Err InvalidOperation
  | Finite s c e =>
      if negb ((Etiny <=? target) && (target <=? Emax)) then Err InvalidOperation
      else if c =? 0 then _fix (Finite s 0 target)
      else if adjusted c e >? Emax then Err InvalidOperation
      else if adjusted c e - target + 1 >? prec then Err InvalidOperation
      else
        match _rescale s c e target with
        | Finite s' c' e' =>
            if adjusted c' e' >? Emax then Err InvalidOperation
            else if ndigits c' >? prec then Err InvalidOperation
            else _fix (Finite s' c' e')
        | other => Ok other
        end
  end.

(** The exponent of [Decimal(10) ** -p]: the power is exact while it has
    at most [prec] digits, is rounded to [prec] digits above that,
    overflows above [Emax] and underflows to a zero at [Etiny]. *)
Definition pow10_neg_exp (p : Z) : res signal Z :=
  if 0 <=? p then Ok (Z.max (- p) Etiny)
  else if - p <? prec then Ok 0
  else if - p <=? Emax then Ok (- p - prec + 1)
  else Err Overflow.

(** *** Numeric strings *)

Definition is_digit (c : ascii) : bool :=
  let n := Z.of_N (N_of_ascii c) in (48 <=? n) && (n <=? 57).

Definition digit_value (c : ascii) : Z := Z.of_N (N_of_ascii c) - 48.

(** [int(digits)], with [int(EmptyString)] read as 0 where the grammar allows an
    empty group. *)
Definition digits_value (l : list ascii) : Z :=
  fold_left (fun acc c => 10 * acc + digit_value c) l 0.

Fixpoint span_digits (l : list ascii) : list ascii * list ascii :=
  match l with
  | c :: l' =>
      if is_digit c then let '(ds, r) := span_digits l' in (c :: ds, r)
      else ([], l)
  | [] => ([], [])
  end.

(** The shape of a numeric string, as the groups of the module's
    grammar: sign, integer part, fractional part, exponent. *)
Inductive literal : Type :=
| LNumber (sign : bool) (intpart : list ascii)
          (frac : option (list ascii)) (exp : option (bool * list ascii))
| LInfinity (sign : bool)
| LNaN (sign : bool) (signaling : bool) (diag : list ascii).

Definition take_sign (l : list ascii) : bool * list ascii :=
  match l with
  | "-"%char :: r => (true, r)
  | "+"%char :: r => (false, r)
  | _ => (false, l)
  end.

Definition is_e (c : ascii) : bool :=
  Ascii.eqb c "e"%char || Ascii.eqb c "E"%char.

Definition parse_exponent (l : list ascii) : option (option (bool * list ascii)) :=
  match l with
  | [] => Some None
  | c :: r =>
      if is_e c then
        let '(s, ds) := take_sign r in
        match ds with
        | [] => None
        | _ => if forallb is_digit ds then Some (Some (s, ds)) else None
        end
      else None
  end.

Definition parse_number (s : bool) (l : list ascii) : option literal :=
  let '(ip, r1) := span_digits l in
  match r1 with
  | "."%char :: r1' =>
      let '(fp, r2) := span_digits r1' in
      match ip, fp with
      | [], [] => None
      | _, _ => LNumber s ip (Some fp) <$> parse_exponent r2
      end
  | _ =>
      match ip with
      | [] => None
      | _ => LNumber s ip None <$> parse_exponent r1
      end
  end.

(** [l] without its prefix [p], when it starts with [p]. *)
Fixpoint strip_prefix (p l : list ascii) : option (list ascii) :=
  match p, l with
  | [], _ => Some l
  | a :: p', b :: l' => if Ascii.eqb a b then strip_prefix p' l' else None
  | _ :: _, [] => None
  end.

(** The second and third alternatives of the grammar, letter case
    ignored: Inf or Infinity, and NaN with an optional leading s and
    optional trailing digits. *)
Definition parse_special (s : bool) (l : list ascii) : option literal :=
  let low := PyStr.lower_chars l in
  if String.eqb (PyStr.of_chars low) "inf"
     || String.eqb (PyStr.of_chars low) "infinity"
  then Some (LInfinity s)
  else
    match strip_prefix (PyStr.chars "snan") low with
    | Some diag =>
        if forallb is_digit diag then Some (LNaN s true diag) else None
    | None =>
        match strip_prefix (PyStr.chars "nan") low with
        | Some diag =>
            if forallb is_digit diag then Some (LNaN s false diag) else None
        | None => None
        end
    end.

(** The grammar of [Decimal(str)]: surrounding whitespace and
    underscores are dropped first. *)
Definition parse (s : string) : option literal :=
  let l := PyStr.remove_char "_"%char (PyStr.chars (PyStr.strip s)) in
  let '(sg, r) := take_sign l in
  match parse_number sg r with
  | Some lit => Some lit
  | None => parse_special sg r
  end.

Definition exponent_value (e : option (bool * list ascii)) : Z :=
  match e with
  | None => 0
  | Some (s, ds) => signed s (digits_value ds)
  end.

Definition of_literal (lit : literal) : Decimal :=
  match lit with
  | LNumber s ip fp ex =>
      let fp' := default [] fp in
      Finite s (digits_value (ip ++ fp'))
             (exponent_value ex - Z.of_nat (length fp'))
  | LInfinity s => Infinity s
  | LNaN s sg diag => NaN s sg (digits_value diag)
  end.

(** [Decimal(s)] for a string [s]; [None] stands for the
    [InvalidOperation] raised on a syntax error. *)
Definition of_string (s : string) : option Decimal := of_literal <$> parse s.

End decimal.

(** ** Enumerations and the result record *)

Inductive OperationStatus : Type := SUCCESS | FAILURE | PARTIAL.

Inductive NumberType : Type := INTEGER | FLOAT | DECIMAL.

(** [NumberType.value] *)
Definition NumberType_value (t : NumberType) : string :=
  match t with
  | INTEGER => "integer"
  | FLOAT => "float"
  | DECIMAL => "decimal"
  end.

(** [OperationStatus.value] *)
Definition OperationStatus_value (s : OperationStatus) : string :=
  match s with
  | SUCCESS => "success"
  | FAILURE => "failure"
  | PARTIAL => "partial"
  end.

Record OperationResult : Type := {
  status : OperationStatus;
  result : option decimal.Decimal;
  error_message : string;
  processed_count : nat;
  failed_count : nat;
  execution_time : Q;
  number_types : option (gmap string nat);
  source : string
}.

(** ** Exceptions *)

Inductive exn : Type :=
| TimeoutError (msg : string)
| ValueError (msg : string)
| DecimalException (sig : decimal.signal)
| NameError (name : string)
| IOError (type_name msg : string)
| OtherException (type_name msg : string)
| BaseOnly (type_name msg : string).

(** [isinstance(e, Exception)]: everything but the exceptions that derive
    from [BaseException] alone (KeyboardInterrupt, SystemExit, ...). *)
Definition is_Exception (e : exn) : bool :=
  match e with BaseOnly _ _ => false | _ => true end.

(** [isinstance(e, TimeoutError)]: the built-in class is itself an
    [OSError], the one that [open] and [stat] raise on a connection that
    timed out. *)
Definition is_TimeoutError (e : exn) : bool :=
  match e with
  | TimeoutError _ => true
  | IOError type_name _ => String.eqb type_name "TimeoutError"
  | _ => false
  end.

Definition signal_name (s : decimal.signal) : string :=
  match s with
  | decimal.InvalidOperation => "InvalidOperation"
  | decimal.Overflow => "Overflow"
  end.

(** ** The runtime *)

Inductive level : Type := INFO | WARNING | ERROR.

(** What the program reads from its environment. *)
Record World : Type := {
  (** the value returned by the k-th call of [time.time()] *)
  time_time : nat -> Q;
  (** [str(x)] of a float *)
  str_float : Q -> string;
  (** [f"{x:.4f}"] of a float *)
  format_4f : Q -> string;
  (** [str(e)] of an exception raised by the decimal module *)
  str_signal : decimal.signal -> string;
  (** [os.stat(path)] raising an [OSError] other than those that
      [Path.exists()] takes for an absent file (ENOENT, ENOTDIR, EBADF,
      ELOOP): its class name and message, for instance on a name that is
      too long. [Path.exists()] and [Path.stat()] raise it again. *)
  stat_error : string -> option (string * string);
  (** [Path.exists()], when [os.stat] raises no such error *)
  path_exists : string -> bool;
  (** [Path.stat().st_size], for a path that exists *)
  st_size : string -> Z;
  (** [open(path, 'r', encoding='utf-8')]: the text of the file, or the
      class name and message of the [OSError] *)
  open_text : string -> res (string * string) string
}.

(** [type(e).__name__] *)
Definition exn_type_name (e : exn) : string :=
  match e with
  | TimeoutError _ => "TimeoutError"
  | ValueError _ => "ValueError"
  | DecimalException s => signal_name s
  | NameError _ => "NameError"
  | IOError n _ => n
  | OtherException n _ => n
  | BaseOnly n _ => n
  end.

(** [str(e)] *)
Definition exn_str (w : World) (e : exn) : string :=
  match e with
  | TimeoutError m => m
  | ValueError m => m
  | DecimalException s => str_signal w s
  | NameError n => "name '" +:+ n +:+ "' is not defined"
  | IOError _ m => m
  | OtherException _ m => m
  | BaseOnly _ m => m
  end.

(** The outcome tuple of the validator: [(True, num, num_type)] or
    [(False, message, None)]. *)
Inductive validation : Type :=
| Valid (num : decimal.Decimal) (num_type : NumberType)
| Invalid (msg : string).

Definition is_valid (v : validation) : bool :=
  match v with Valid _ _ => true | Invalid _ => false end.

(** The state of the process: the class attribute [NumberValidator._cache],
    the records emitted through [logger], and how many times the clock
    has been read. *)
Record Runtime : Type := {
  _cache : gmap string validation;
  log : list (level * string);
  clock_reads : nat
}.

Definition initial_runtime : Runtime :=
  {| _cache := ∅; log := []; clock_reads := 0 |}.

(** Computations that read and write the process state and may raise. *)
Definition M (A : Type) : Type := Runtime -> res exn A * Runtime.

Definition ret {A} (a : A) : M A := fun st => (Ok a, st).

Definition bind {A B} (c : M A) (k : A -> M B) : M B :=
  fun st =>
    match c st with
    | (Ok a, st') => k a st'
    | (Err e, st') => (Err e, st')
    end.

Definition raise {A} (e : exn) : M A := fun st => (Err e, st).

(** [try: c  except ...: h e] *)
Definition try_except {A} (c : M A) (h : exn -> M A) : M A :=
  fun st =>
    match c st with
    | (Ok a, st') => (Ok a, st')
    | (Err e, st') => h e st'
    end.

Notation "'do' x <- c1 ;; c2" := (bind c1 (fun x => c2))
  (at level 10, x name, c1 at level 99, c2 at level 200).

Definition get_cache : M (gmap string validation) :=
  fun st => (Ok (_cache st), st).

Definition set_cache (c : gmap string validation) : M unit :=
  fun st => (Ok tt, {| _cache := c; log := log st; clock_reads := clock_reads st |}).

Definition logger (lvl : level) (msg : string) : M unit :=
  fun st => (Ok tt, {| _cache := _cache st; log := log st ++ [(lvl, msg)];
                       clock_reads := clock_reads st |}).

(** [time.time()] *)
Definition now (w : World) : M Q :=
  fun st => (Ok (time_time w (clock_reads st)),
             {| _cache := _cache st; log := log st;
                clock_reads := S (clock_reads st) |}).

(** ** NumberValidator *)

Module NumberValidator.

Definition MAX_CACHE_SIZE : Z := 10000.

Definition reserved : list string := ["nan"; "inf"; "-inf"].

Definition detect_type (value_clean : string) : NumberType :=
  if negb (PyStr.contains "." value_clean)
     && negb (PyStr.contains "e" (PyStr.lower value_clean))
  then INTEGER
  else if PyStr.contains "e" (PyStr.lower value_clean) then FLOAT
  else DECIMAL.

(** The body of the [try] block. *)
Definition try_body (value_clean : string)
  : res exn (decimal.Decimal * NumberType) :=
  if String.eqb value_clean EmptyString
     || existsb (String.eqb (PyStr.lower value_clean)) reserved
  then Err (ValueError "Invalid numeric value")
  else
    match decimal.of_string value_clean with
    | None => Err (DecimalException decimal.InvalidOperation)
    | Some num => Ok (num, detect_type value_clean)
    end.

(** The result tuple and whether the [except] clause ran. *)
Definition compute (value_clean : string) : validation :=
  match try_body value_clean with
  | Ok (num, num_type) => Valid num num_type
  | Err _ => Invalid ("Invalid number: " +:+ value_clean)
  end.

Definition validate (value : string) : M validation :=
  let cache_key := PyStr.strip value in
  do cache <- get_cache ;;
  match cache !! cache_key with
  | Some cached => ret cached
  | None =>
      let value_clean := PyStr.strip value in
      let result := compute value_clean in
      do _ <- (if is_valid result then ret tt
               else logger WARNING ("Validation failed for input: " +:+ value_clean)) ;;
      do cache <- get_cache ;;
      let cache := if Z.of_nat (size cache) >=? MAX_CACHE_SIZE then ∅ else cache in
      do _ <- set_cache (<[cache_key := result]> cache) ;;
      ret result
  end.

End NumberValidator.

(** ** Input sources *)

(** What a generator does between two consecutive items: it emits log
    records, and it yields. A generator is the finite sequence of these
    events, closed by a normal return or by an exception. *)
Inductive gen_event : Type :=
| GYield (value : string)
| GLog (lvl : level) (msg : string).

Record generator : Type := {
  events : list gen_event;
  finish : option exn
}.

(** The interface [InputSource]: the two abstract methods, and the name of
    the concrete class. *)
Module InputSource.

Record t : Type := {
  class_name : string;
  validate_source : World -> res exn (bool * string);
  read : World -> generator
}.

End InputSource.

(** The elements of the list given to [ListSource] (floats are left out). *)
Inductive scalar : Type :=
| SStr (s : string)
| SInt (z : Z).

(** [str(num)] *)
Definition str (x : scalar) : string :=
  match x with
  | SStr s => s
  | SInt z => pretty z
  end.

(** The object stored in [ListSource.numbers]. *)
Inductive pyobject : Type :=
| PyList (l : list scalar)
| PyTuple (l : list scalar)
| PyOther.

Module ListSource.

Definition validate_source (numbers : pyobject) : bool * string :=
  match numbers with
  | PyOther => (false, "Input must be a list or tuple")
  | PyList [] | PyTuple [] => (false, "List is empty")
  | _ => (true, "Valid")
  end.

Definition read (numbers : pyobject) : generator :=
  match numbers with
  | PyList l | PyTuple l =>
      {| events := map (fun num => GYield (str num)) l; finish := None |}
  | PyOther =>
      {| events := [];
         finish := Some (OtherException "TypeError" "object is not iterable") |}
  end.

Definition new (numbers : pyobject) : InputSource.t :=
  {| InputSource.class_name := "ListSource";
     InputSource.validate_source := fun _ => Ok (validate_source numbers);
     InputSource.read := fun _ => read numbers |}.

End ListSource.

(** [csv.reader] applied to the text of a file: the rows, each a list of
    cells. *)
Definition csv_reader : Type := string -> list (list string).

(** The binding of the global name [csv] in the module. The file imports
    logging, sys, typing, decimal, dataclasses, enum, time, pathlib and
    abc; it never imports csv, so the name is unbound. *)
Definition module_csv : option csv_reader := None.

(** [pathlib.Path] on a POSIX system: the text given to the constructor is
    cut at the slashes, and the empty parts and the parts that are a
    single dot are dropped. *)
Module Path.

(** The number of slashes that a text starts with. *)
Fixpoint leading_slashes (l : list ascii) : nat :=
  match l with
  | c :: l' => if Ascii.eqb "/" c then S (leading_slashes l') else 0
  | [] => 0
  end.

(** The root: none, one slash, or two for a text that starts with
    exactly two. *)
Definition root (s : string) : string :=
  match leading_slashes (PyStr.chars s) with
  | 0 => EmptyString
  | 2 => "//"
  | _ => "/"
  end%nat.

Definition parts (s : string) : list string :=
  List.filter (fun x => negb (String.eqb x EmptyString) && negb (String.eqb x "."))
              (PyStr.split "/" s).

(** [str(path)] *)
Definition __str__ (s : string) : string :=
  match root s, parts s with
  | EmptyString, [] => "."
  | r, t => r +:+ PyStr.join "/" t
  end.

(** [path.name]: the last part, if any. *)
Definition name (s : string) : string := List.last (parts s) EmptyString.

(** [path.suffix]: the name from its last dot on, when that dot is
    neither the first nor the last character of the name. *)
Definition suffix (s : string) : string :=
  match rev (PyStr.split_chars "." [] (PyStr.chars (name s))) with
  | ext :: pre =>
      match ext, pre with
      | [], _ | _, [] | _, [[]] => EmptyString
      | _, _ => PyStr.of_chars ("."%char :: ext)
      end
  | [] => EmptyString
  end.

End Path.

Module FileSource.

(** [self.filepath.suffix], for the text given to the constructor. *)
Definition suffix (filepath : string) : string := Path.suffix filepath.

(** The first call, [self.filepath.exists()], raises the error of
    [os.stat], if any; no other call of the method can raise. *)
Definition validate_source (filepath : string) (w : World)
  : res exn (bool * string) :=
  let path := Path.__str__ filepath in
  match stat_error w path with
  | Some (type_name, msg) => Err (IOError type_name msg)
  | None =>
      Ok (if negb (path_exists w path) then
            (false, "File not found: " +:+ path)
          else if negb (existsb (String.eqb (PyStr.lower (suffix filepath)))
                                [".csv"; ".txt"]) then
            (false, "Only CSV and TXT files supported")
          else if negb (st_size w path >? 0) then
            (false, "File is empty")
          else (true, "Valid"))
  end.

(** [row[column_index]], with Python's negative indices. *)
Definition index (row : list string) (column_index : Z) : option string :=
  let n := Z.of_nat (length row) in
  if 0 <=? column_index then row !! Z.to_nat column_index
  else if - n <=? column_index then row !! Z.to_nat (n + column_index)
  else None.

(** The body of the loop over the rows. *)
Definition row_events (column_index : Z) (row_idx : nat) (row : list string)
  : list gen_event :=
  if column_index <? Z.of_nat (length row) then
    match index row column_index with
    | Some cell =>
        let value := PyStr.strip cell in
        if String.eqb value EmptyString then [] else [GYield value]
    | None =>
        [GLog WARNING ("Error reading row " +:+ pretty row_idx
                       +:+ ": list index out of range")]
    end
  else
    [GLog WARNING ("Row " +:+ pretty row_idx +:+ ": Column index "
                   +:+ pretty column_index +:+ " out of range")].

Definition read_with (csv : option csv_reader) (filepath : string)
  (column_index : Z) (skip_header : bool) (w : World) : generator :=
  match open_text w (Path.__str__ filepath) with
  | Err (type_name, msg) =>
      {| events := [GLog ERROR ("File read error: " +:+ msg)];
         finish := Some (IOError type_name msg) |}
  | Ok text =>
      match csv with
      | None => {| events := []; finish := Some (NameError "csv") |}
      | Some reader =>
          let rows := reader text in
          let rows := if skip_header then tail rows else rows in
          {| events := concat (imap (row_events column_index) rows);
             finish := None |}
      end
  end.

Definition read := read_with module_csv.

Definition new_with (csv : option csv_reader) (filepath : string)
  (column_index : Z) (skip_header : bool) : InputSource.t :=
  {| InputSource.class_name := "FileSource";
     InputSource.validate_source := validate_source filepath;
     InputSource.read := read_with csv filepath column_index skip_header |}.

Definition new := new_with module_csv.

End FileSource.

(** ** AdditionService *)

Module AdditionService.

Record t : Type := {
  precision : Z;
  timeout : Q;
  operations_count : Z
}.

(** [AdditionService(precision, timeout)] *)
Definition new (precision : Z) (timeout : Q) : t :=
  {| precision := precision; timeout := timeout; operations_count := 0 |}.

(** The local variables of [add_from_source] that the loop updates. *)
Record locals : Type := {
  total : decimal.Decimal;
  processed : nat;
  failed : nat;
  errors : list string;
  type_counts : gmap string nat
}.

Definition initial_locals : locals :=
  {| total := decimal.Finite false 0 0;
     processed := 0;
     failed := 0;
     errors := [];
     type_counts :=
       list_to_map (map (fun t => (NumberType_value t, 0%nat))
                        [INTEGER; FLOAT; DECIMAL]) |}.

(** One iteration of the [for] loop, for the item [value] at position
    [idx]. *)
Definition loop_body (w : World) (self : t) (start_time : Q) (idx : nat)
  (value : string) (l : locals) : M locals :=
  do t <- now w ;;
  if negb (Qle_bool (t - start_time)%Q (timeout self)) then
    raise (TimeoutError ("Operation timeout after "
                         +:+ str_float w (timeout self) +:+ "s"))
  else
    do v <- NumberValidator.validate value ;;
    match v with
    | Valid result num_type =>
        match decimal.add (total l) result with
        | Err sig => raise (DecimalException sig)
        | Ok total' =>
            ret {| total := total';
                   processed := S (processed l);
                   failed := failed l;
                   errors := errors l;
                   type_counts :=
                     alter S (NumberType_value num_type) (type_counts l) |}
        end
    | Invalid result =>
        ret {| total := total l;
               processed := processed l;
               failed := S (failed l);
               errors := errors l
                         ++ ["Index " +:+ pretty idx +:+ ": " +:+ result];
               type_counts := type_counts l |}
    end.

(** [for idx, value in enumerate(source.read())] *)
Fixpoint for_loop (w : World) (self : t) (start_time : Q) (idx : nat)
  (evs : list gen_event) (fin : option exn) (l : locals) : M locals :=
  match evs with
  | [] =>
      match fin with
      | None => ret l
      | Some e => raise e
      end
  | GLog lvl msg :: evs' =>
      do _ <- logger lvl msg ;;
      for_loop w self start_time idx evs' fin l
  | GYield value :: evs' =>
      do l' <- loop_body w self start_time idx value l ;;
      for_loop w self start_time (S idx) evs' fin l'
  end.

Definition failure (w : World) (source : InputSource.t) (start_time : Q)
  (msg : string) : M OperationResult :=
  do t <- now w ;;
  ret {| status := FAILURE;
         result := None;
         error_message := msg;
         processed_count := 0;
         failed_count := 0;
         execution_time := (t - start_time)%Q;
         number_types := None;
         source := InputSource.class_name source |}.

(** The statements of the [try] block. *)
Definition try_block (w : World) (self : t) (source : InputSource.t)
  (start_time : Q) : M (OperationResult * t) :=
  let g := InputSource.read source w in
  do l <- for_loop w self start_time 0 (events g) (finish g) initial_locals ;;
  match decimal.pow10_neg_exp (precision self) with
  | Err sig => raise (DecimalException sig)
  | Ok target =>
      match decimal.quantize (total l) target with
      | Err sig => raise (DecimalException sig)
      | Ok total =>
          let '(status, total) :=
            if (failed l =? 0)%nat then (SUCCESS, Some total)
            else if (processed l =? 0)%nat then (FAILURE, None)
            else (PARTIAL, Some total) in
          do t <- now w ;;
          let execution_time := (t - start_time)%Q in
          let self := {| precision := precision self;
                         timeout := timeout self;
                         operations_count := operations_count self + 1 |} in
          let result_obj :=
            {| status := status;
               result := total;
               error_message :=
                 match errors l with
                 | [] => EmptyString
                 | _ => PyStr.join "; " (take 5 (errors l))
                 end;
               processed_count := processed l;
               failed_count := failed l;
               execution_time := execution_time;
               number_types := Some (type_counts l);
               source := InputSource.class_name source |} in
          do _ <- logger INFO
               ("Operation " +:+ pretty (operations_count self)
                +:+ ": Source=" +:+ InputSource.class_name source
                +:+ ", Status=" +:+ OperationStatus_value status
                +:+ ", Processed=" +:+ pretty (processed l)
                +:+ ", Failed=" +:+ pretty (failed l)
                +:+ ", Time=" +:+ format_4f w execution_time +:+ "s") ;;
          ret (result_obj, self)
      end
  end.

(** The two [except] clauses. *)
Definition handlers (w : World) (self : t) (source : InputSource.t)
  (start_time : Q) (e : exn) : M (OperationResult * t) :=
  if is_TimeoutError e then
    do _ <- logger ERROR ("Timeout: " +:+ exn_str w e) ;;
    do r <- failure w source start_time (exn_str w e) ;;
    ret (r, self)
  else if is_Exception e then
    do _ <- logger ERROR ("Error: " +:+ exn_type_name e +:+ ": " +:+ exn_str w e) ;;
    do r <- failure w source start_time
              (exn_type_name e +:+ ": " +:+ exn_str w e) ;;
    ret (r, self)
  else raise e.

Definition add_from_source (w : World) (self : t) (source : InputSource.t)
  : M (OperationResult * t) :=
  do start_time <- now w ;;
  match InputSource.validate_source source w with
  | Err e => raise e
  | Ok (is_valid, msg) =>
      if negb is_valid then
        do _ <- logger ERROR ("Source validation failed: " +:+ msg) ;;
        do r <- failure w source start_time msg ;;
        ret (r, self)
      else
        try_except (try_block w self source start_time)
                   (handlers w self source start_time)
  end.

Definition add_numbers (w : World) (self : t) (numbers : pyobject)
  : M (OperationResult * t) :=
  add_from_source w self (ListSource.new numbers).

Definition add_from_csv (w : World) (self : t) (filepath : string)
  (column_index : Z) (skip_header : bool) : M (OperationResult * t) :=
  add_from_source w self (FileSource.new filepath column_index skip_header).

End AdditionService.

(** ** Notions used to state the properties *)

(** The outcome that the validator computes for an input, cache aside. *)
Definition outcome (value : string) : validation :=
  NumberValidator.compute (PyStr.strip value).

Definition value_of (v : validation) : option decimal.Decimal :=
  match v with Valid num _ => Some num | Invalid _ => None end.

(** The numbers denoted by the valid entries of a list of literals. *)
Definition valid_values (lits : list string) : list decimal.Decimal :=
  omap (fun s => value_of (outcome s)) lits.

(** Every cached entry is the outcome of its key: true of the empty cache
    and kept by [validate], which is the only writer. *)
Definition cache_coherent (st : Runtime) : Prop :=
  forall k r, _cache st !! k = Some r -> r = NumberValidator.compute k.


(** The rational number that a finite decimal denotes. *)
Definition Qvalue (d : decimal.Decimal) : Q :=
  match d with
  | decimal.Finite s c e => (inject_Z (decimal.signed s c) * 10 ^ e)%Q
  | _ => 0%Q
  end.

(** The exact sum of a list of decimals. *)
Definition exact_sum (ds : list decimal.Decimal) : Q :=
  fold_right (fun d acc => (Qvalue d + acc)%Q) 0%Q ds.

(** [x] rounded to [p] fractional digits, halves away from zero. *)
Definition Q_round_half_up (x : Q) (p : Z) : Q :=
  let n := Qfloor (Qabs x * 10 ^ p + (1 # 2))%Q in
  ((if Qle_bool 0 x then inject_Z n else - inject_Z n) * 10 ^ (- p))%Q.

(** A finite decimal written in units of [10^E]. *)
Definition units (E : Z) (d : decimal.Decimal) : Z :=
  match d with
  | decimal.Finite s c e => decimal.signed s c * 10 ^ (e - E)
  | _ => 0
  end.

(** The sum of the absolute values, in units of [10^E]. *)
Definition magnitude (E : Z) (ds : list decimal.Decimal) : Z :=
  fold_right (fun d acc => Z.abs (units E d) + acc) 0 ds.

(** A finite decimal with no digit below [10^E]. *)
Definition finite_above (E : Z) (d : decimal.Decimal) : Prop :=
  match d with
  | decimal.Finite _ c e => 0 <= c /\ E <= e
  | _ => False
  end.

(** The values fit the working precision of the context: sums of them
    need at most [prec] digits down to [10^E], and their rounding to [p]
    fractional digits stays below [10^(prec-1)]. *)
Definition within_precision (E p : Z) (ds : list decimal.Decimal) : Prop :=
  decimal.Etiny <= E <= 0 /\ 0 <= p <= - decimal.Etiny /\
  Forall (finite_above E) ds /\
  magnitude E ds < 10 ^ decimal.prec /\
  magnitude E ds * 10 ^ p < 10 ^ (decimal.prec - 1 - E).

(** The state after one reading of the clock. *)
Definition tick (st : Runtime) : Runtime :=
  {| _cache := _cache st; log := log st; clock_reads := S (clock_reads st) |}.

(** No timeout while [n] items are streamed from the state [st]: the
    reading taken before the item at position [i] is within the timeout
    of the first reading. *)
Definition no_timeout (w : World) (self : AdditionService.t) (st : Runtime)
  (n : nat) : Prop :=
  forall i, (i < n)%nat ->
    Qle_bool (time_time w (S (clock_reads st) + i)
              - time_time w (clock_reads st))%Q
             (AdditionService.timeout self) = true.

(** The number of items that a generator yields. *)
Fixpoint yields (evs : list gen_event) : nat :=
  match evs with
  | [] => 0
  | GYield _ :: evs' => S (yields evs')
  | GLog _ _ :: evs' => yields evs'
  end.

(** The call reaches the end of the [try] block: the source is accepted,
    the stream is consumed to its end and the result is built there. *)
Definition completes (w : World) (self : AdditionService.t)
  (source : InputSource.t) (st : Runtime) (r : OperationResult) : Prop :=
  (exists msg, InputSource.validate_source source w = Ok (true, msg)) /\
  exists self' st',
    AdditionService.try_block w self source (time_time w (clock_reads st))
      (tick st)
    = (Ok (r, self'), st').

(** A world in which the clock stands still and no file exists. *)
Definition still_world : World :=
  {| time_time := fun _ => 0%Q;
     str_float := fun _ => "30.0";
     format_4f := fun _ => "0.0000";
     str_signal := fun s => "[<class 'decimal." +:+ signal_name s +:+ "'>]";
     stat_error := fun _ => None;
     path_exists := fun _ => false;
     st_size := fun _ => 0;
     open_text := fun _ => Err ("FileNotFoundError", "No such file or directory") |}.

(** The state that a call of the validator leaves when it misses the
    cache. *)
Definition after_miss (value : string) (st : Runtime) : Runtime :=
  {| _cache :=
       <[PyStr.strip value := outcome value]>
         (if Z.of_nat (size (_cache st)) >=? NumberValidator.MAX_CACHE_SIZE
          then ∅ else _cache st);
     log := log st ++
            (if is_valid (outcome value) then []
             else [(WARNING, "Validation failed for input: " +:+ PyStr.strip value)]);
     clock_reads := clock_reads st |}.


(** The running total of the loop: finite, with exponent between [E] and
    0. *)
Definition total_ok (E : Z) (d : decimal.Decimal) : Prop :=
  match d with
  | decimal.Finite _ c e => 0 <= c /\ E <= e <= 0
  | _ => False
  end.

(** The coefficient of a finite number brought to the exponent [- p],
    halves rounded up. *)
Definition rescaled (c e p : Z) : Z :=
  if e >=? - p then c * 10 ^ (e + p) else decimal.round_half_up c (- p - e).

(** The sum of a list of finite decimals, in units of [10^E]. *)
Definition units_sum (E : Z) (ds : list decimal.Decimal) : Z :=
  fold_right (fun d acc => units E d + acc) 0 ds.

(** The status and the result that the end of the [try] block derives
    from the counters and the quantized total. *)
Definition final_status (l : AdditionService.locals) : OperationStatus :=
  if (AdditionService.failed l =? 0)%nat then SUCCESS
  else if (AdditionService.processed l =? 0)%nat then FAILURE
  else PARTIAL.

Definition final_result (l : AdditionService.locals) (q : decimal.Decimal)
  : option decimal.Decimal :=
  if (AdditionService.failed l =? 0)%nat then Some q
  else if (AdditionService.processed l =? 0)%nat then None
  else Some q.

(** The locals after a valid, and after an invalid, item. *)
Definition after_valid (l : AdditionService.locals) (total' : decimal.Decimal)
  (num_type : NumberType) : AdditionService.locals :=
  {| AdditionService.total := total';
     AdditionService.processed := S (AdditionService.processed l);
     AdditionService.failed := AdditionService.failed l;
     AdditionService.errors := AdditionService.errors l;
     AdditionService.type_counts :=
       alter S (NumberType_value num_type) (AdditionService.type_counts l) |}.

Definition after_invalid (l : AdditionService.locals) (idx : nat)
  (msg : string) : AdditionService.locals :=
  {| AdditionService.total := AdditionService.total l;
     AdditionService.processed := AdditionService.processed l;
     AdditionService.failed := S (AdditionService.failed l);
     AdditionService.errors :=
       AdditionService.errors l ++ ["Index " +:+ pretty idx +:+ ": " +:+ msg];
     AdditionService.type_counts := AdditionService.type_counts l |}.

(** The outcome of an iteration once the validator has answered. *)
Definition step (l : AdditionService.locals) (idx : nat) (v : validation)
  : res exn AdditionService.locals :=
  match v with
  | Valid num num_type =>
      match decimal.add (AdditionService.total l) num with
      | Err sig => Err (DecimalException sig)
      | Ok total' => Ok (after_valid l total' num_type)
      end
  | Invalid msg => Ok (after_invalid l idx msg)
  end.

(** The message of the timeout raised by the loop. *)
Definition timeout_message (w : World) (self : AdditionService.t) : string :=
  "Operation timeout after " +:+ str_float w (AdditionService.timeout self) +:+ "s".

(** The value that a computation returns, if it returns. *)
Definition returned {A : Type} (x : res exn A * Runtime) : option A :=
  match fst x with
  | Ok a => Some a
  | Err _ => None
  end.

(** An implementation of the interface that is accepted and yields
    nothing: what a file with a header and no data row amounts to. *)
Definition silent_source : InputSource.t :=
  {| InputSource.class_name := "SilentSource";
     InputSource.validate_source := fun _ => Ok (true, "Valid");
     InputSource.read := fun _ => {| events := []; finish := None |} |}.


(** A world whose clock jumps by a hundred seconds at its third
    reading. *)
Definition late_world : World :=
  {| time_time := fun k => if (k <? 2)%nat then 0%Q else 100%Q;
     str_float := str_float still_world;
     format_4f := format_4f still_world;
     str_signal := str_signal still_world;
     stat_error := stat_error still_world;
     path_exists := path_exists still_world;
     st_size := st_size still_world;
     open_text := open_text still_world |}.

(** The rule for status and result as the specification words it. *)
Definition claimed_status_rule (r : OperationResult) : Prop :=
  (status r = SUCCESS <-> failed_count r = 0%nat /\ (1 <= processed_count r)%nat)
  /\ (status r = FAILURE <-> processed_count r = 0%nat)
  /\ (status r = FAILURE -> result r = None)
  /\ (status r = PARTIAL -> is_Some (result r))
  /\ (is_Some (result r) <-> status r = SUCCESS \/ status r = PARTIAL).

(** The invariant of the counts as the specification words it, for one
    call: whenever the source is accepted and the loop over its items
    runs to its end, the counts of the returned result add up to the
    number of items. *)
Definition claimed_every_token_counted (w : World) (self : AdditionService.t)
  (source : InputSource.t) (st : Runtime) : Prop :=
  forall msg l st1 r self' st',
    InputSource.validate_source source w = Ok (true, msg) ->
    AdditionService.for_loop w self (time_time w (clock_reads st)) 0
      (events (InputSource.read source w)) (finish (InputSource.read source w))
      AdditionService.initial_locals (tick st) = (Ok l, st1) ->
    AdditionService.add_from_source w self source st = (Ok (r, self'), st') ->
    (processed_count r + failed_count r
     = yields (events (InputSource.read source w)))%nat.




(** The first two testable properties as the specification words them,
    for one call. *)
Definition claimed_sum_of_valid (w : World) (self : AdditionService.t)
  (st : Runtime) (numbers : list scalar) : Prop :=
  Forall (fun s => is_valid (outcome s) = true) (map str numbers) ->
  exists r self' st' d,
    AdditionService.add_numbers w self (PyList numbers) st = (Ok (r, self'), st')
    /\ processed_count r = length numbers
    /\ failed_count r = 0%nat
    /\ status r = SUCCESS
    /\ result r = Some d
    /\ (Qvalue d == Q_round_half_up (exact_sum (valid_values (map str numbers)))
                      (AdditionService.precision self))%Q.

Definition claimed_partial_sum (w : World) (self : AdditionService.t)
  (st : Runtime) (numbers : list scalar) : Prop :=
  Exists (fun s => is_valid (outcome s) = true) (map str numbers) ->
  Exists (fun s => is_valid (outcome s) = false) (map str numbers) ->
  exists r self' st' d,
    AdditionService.add_numbers w self (PyList numbers) st = (Ok (r, self'), st')
    /\ status r = PARTIAL
    /\ result r = Some d
    /\ (Qvalue d == Q_round_half_up (exact_sum (valid_values (map str numbers)))
                      (AdditionService.precision self))%Q.

(** The file of the specification's example: a header and two rows. *)
Definition newline : string := String (ascii_of_nat 10) EmptyString.

Definition two_column_csv : string :=
  "a,b" +:+ newline +:+ "1,10" +:+ newline +:+ "2,20" +:+ newline.

(** A world in which that file is [data.csv]. *)
Definition csv_world : World :=
  {| time_time := time_time still_world;
     str_float := str_float still_world;
     format_4f := format_4f still_world;
     str_signal := str_signal still_world;
     stat_error := stat_error still_world;
     path_exists := fun p => String.eqb p "data.csv";
     st_size := fun p =>
       if String.eqb p "data.csv" then Z.of_nat (String.length two_column_csv) else 0;
     open_text := fun p =>
       if String.eqb p "data.csv" then Ok two_column_csv
       else Err ("FileNotFoundError", "No such file or directory") |}.

(** What [csv.reader] does on text without quotes, one record per line:
    the lines, each split at the commas; an empty line is an empty
    row. *)
Definition plain_csv_reader : csv_reader :=
  fun text =>
    let lines := PyStr.split (ascii_of_nat 10) text in
    let lines := match rev lines with
                 | EmptyString :: r => rev r
                 | _ => lines
                 end in
    map (fun line => if String.eqb line EmptyString then [] else PyStr.split "," line) lines.

(** ** Presentation and the interactive entries *)

(** [print_result]: the strings passed to [print], in order. The text of
    a decimal, [str(result.result)], is taken as a parameter. *)
Definition print_result (str_decimal : decimal.Decimal -> string)
  (r : OperationResult) : list string :=
  [newline +:+ PyStr.repeat "=" 50]
  ++ [match result r with
      | Some d => "Sum: " +:+ str_decimal d
      | None => "Status: " +:+ PyStr.upper (OperationStatus_value (status r))
      end]
  ++ (if String.eqb (error_message r) EmptyString then []
      else ["Errors: " +:+ error_message r])
  ++ [PyStr.repeat "=" 50 +:+ newline].

(** Choice 2 of [interactive_mode]: the list built from the line that
    the user typed. *)
Definition menu_numbers (user_input : string) : list string :=
  map PyStr.strip (PyStr.split "," (PyStr.strip user_input)).

(** Choice 2 of [interactive_mode], for the line returned by [input]:
    what is printed, and the service afterwards. *)
Definition menu_add_list (w : World) (str_decimal : decimal.Decimal -> string)
  (service : AdditionService.t) (line : string)
  : M (list string * AdditionService.t) :=
  do out <- AdditionService.add_numbers w service
              (PyList (map SStr (menu_numbers line))) ;;
  ret (print_result str_decimal (fst out), snd out).

(** [add_two_numbers], for the two lines returned by [input]: what is
    printed. *)
Definition add_two_numbers (w : World) (str_decimal : decimal.Decimal -> string)
  (line1 line2 : string) : M (list string) :=
  let service := AdditionService.new 2 30 in
  try_except
    (let num1_str := PyStr.strip line1 in
     let num2_str := PyStr.strip line2 in
     do out <- AdditionService.add_numbers w service
                 (PyList [SStr num1_str; SStr num2_str]) ;;
     ret (print_result str_decimal (fst out)))
    (fun e =>
       if is_Exception e then
         do _ <- logger ERROR ("Error: " +:+ exn_str w e) ;;
         ret ["Error: " +:+ exn_str w e]
       else raise e).

(** ** Notions used by the further properties *)

(** The cache holds at most [MAX_CACHE_SIZE] entries. *)
Definition cache_bounded (st : Runtime) : Prop :=
  Z.of_nat (size (_cache st)) <= NumberValidator.MAX_CACHE_SIZE.

(** The error messages that a stream of literals produces, the first
    literal being at position [idx]. *)
Fixpoint failure_messages (idx : nat) (lits : list string) : list string :=
  match lits with
  | [] => []
  | s :: lits' =>
      match outcome s with
      | Valid _ _ => failure_messages (S idx) lits'
      | Invalid msg =>
          ("Index " +:+ pretty idx +:+ ": " +:+ msg)
          :: failure_messages (S idx) lits'
      end
  end.

(** The literals that a generator yields. *)
Fixpoint yielded (evs : list gen_event) : list string :=
  match evs with
  | [] => []
  | GYield v :: evs' => v :: yielded evs'
  | GLog _ _ :: evs' => yielded evs'
  end.

(** One counter of the histogram of types. *)
Definition type_count (m : gmap string nat) (t : NumberType) : nat :=
  default 0%nat (m !! NumberType_value t).

(** The number of valid literals of a given type. *)
Definition count_type (t : NumberType) (lits : list string) : nat :=
  length (List.filter
            (fun s => match outcome s with
                      | Valid _ t' => String.eqb (NumberType_value t') (NumberType_value t)
                      | Invalid _ => false
                      end) lits).

(** A cache with [MAX_CACHE_SIZE] entries, all coherent: the decimal
    numerals of 0 to 9999. *)
Definition full_cache : gmap string validation :=
  list_to_map (map (fun i : nat => (pretty i, NumberValidator.compute (pretty i)))
                   (seq 0 (Z.to_nat NumberValidator.MAX_CACHE_SIZE))).

Definition full_runtime : Runtime :=
  {| _cache := full_cache; log := []; clock_reads := 0 |}.

(** The histogram has an entry for each of the three types. *)
Definition hist_ok (m : gmap string nat) : Prop :=
  forall t, is_Some (m !! NumberType_value t).

(** Two states that a call cannot tell apart: coherent caches, and the
    clock at the same reading. *)
Definition same_view (st1 st2 : Runtime) : Prop :=
  cache_coherent st1 /\ cache_coherent st2 /\ clock_reads st1 = clock_reads st2.

(** A state whose cache already knows the literal 7 and whose log is not
    empty. *)
Definition warm_runtime : Runtime :=
  {| _cache := {["7" := NumberValidator.compute "7"]};
     log := [(INFO, "started")];
     clock_reads := 0 |}.
(** * Properties *)

(** ** The validator *)

Lemma runtime_eta (st : Runtime) :
  {| _cache := _cache st; log := log st; clock_reads := clock_reads st |} = st.
Proof. by destruct st. Qed.

Lemma validate_hit (value : string) (st : Runtime) (r : validation) :
  _cache st !! PyStr.strip value = Some r ->
  NumberValidator.validate value st = (Ok r, st).
Proof.
  intros H. unfold NumberValidator.validate, bind, get_cache, ret. simpl.
  by rewrite H.
Qed.

Lemma validate_miss (value : string) (st : Runtime) :
  _cache st !! PyStr.strip value = None ->
  NumberValidator.validate value st = (Ok (outcome value), after_miss value st).
Proof.
  intros H. unfold NumberValidator.validate, bind, get_cache, set_cache, ret.
  simpl. rewrite H. unfold after_miss, outcome.
  destruct (is_valid (NumberValidator.compute (PyStr.strip value))); simpl.
  - by rewrite app_nil_r.
  - done.
Qed.

Lemma after_miss_lookup (value : string) (st : Runtime) :
  _cache (after_miss value st) !! PyStr.strip value = Some (outcome value).
Proof. simpl. apply lookup_insert_eq. Qed.


Lemma after_miss_coherent (value : string) (st : Runtime) :
  cache_coherent st -> cache_coherent (after_miss value st).
Proof.
  intros Hc k r. simpl. rewrite lookup_insert.
  case_decide as Hk.
  - intros [= <-]. by rewrite <- Hk.
  - destruct (Z.of_nat (size (_cache st)) >=? NumberValidator.MAX_CACHE_SIZE).
    + by rewrite lookup_empty.
    + apply Hc.
Qed.

(** On a coherent cache the validator returns the outcome of its input,
    keeps the cache coherent and does not read the clock. *)
Lemma validate_outcome (value : string) (st : Runtime) :
  cache_coherent st ->
  exists st',
    NumberValidator.validate value st = (Ok (outcome value), st')
    /\ cache_coherent st' /\ clock_reads st' = clock_reads st.
Proof.
  intros Hc. destruct (_cache st !! PyStr.strip value) as [r|] eqn:Hl.
  - exists st. rewrite (validate_hit _ _ _ Hl).
    by rewrite (Hc _ _ Hl).
  - exists (after_miss value st). rewrite (validate_miss _ _ Hl).
    split; [done|]. split; [by apply after_miss_coherent | done].
Qed.

(** C9. Validating the same literal twice in a row gives the same outcome
    both times, valid or not; the second call finds the entry that the
    first one left in the cache and changes nothing: no parsing, no
    warning, no write. *)
Theorem validate_twice_same_outcome (value : string) (st : Runtime) :
  exists v st1,
    NumberValidator.validate value st = (Ok v, st1)
    /\ _cache st1 !! PyStr.strip value = Some v
    /\ NumberValidator.validate value st1 = (Ok v, st1).
Proof.
  destruct (_cache st !! PyStr.strip value) as [r|] eqn:Hl.
  - exists r, st. by rewrite (validate_hit _ _ _ Hl).
  - exists (outcome value), (after_miss value st).
    rewrite (validate_miss _ _ Hl). split; [done|].
    split; [apply after_miss_lookup|].
    apply validate_hit, after_miss_lookup.
Qed.

(** Calls in between do not change the outcome either, even when they
    evict the entry: from a coherent cache, any sequence of validations
    ends in a state where the literal validates to the same outcome. *)
Lemma validate_stable (value : string) (others : list string) (st : Runtime) :
  cache_coherent st ->
  exists st1 st2 st3,
    NumberValidator.validate value st = (Ok (outcome value), st1)
    /\ fold_left (fun s o => snd (NumberValidator.validate o s)) others st1 = st2
    /\ NumberValidator.validate value st2 = (Ok (outcome value), st3).
Proof.
  intros Hc. destruct (validate_outcome value st Hc) as (st1 & H1 & Hc1 & _).
  exists st1. rewrite H1.
  assert (Hfold : forall l s, cache_coherent s ->
            cache_coherent (fold_left (fun s o => snd (NumberValidator.validate o s)) l s)).
  { induction l as [|o l IH]; intros s Hs; [done|]. simpl. apply IH.
    destruct (validate_outcome o s Hs) as (s' & -> & Hs' & _). done. }
  specialize (Hfold others st1 Hc1).
  destruct (validate_outcome value _ Hfold) as (st3 & H3 & _).
  eauto 10.
Qed.

(** ** The grammar of literals and the detected type *)

Section Membership.
(** A test on characters that no whitespace, underscore or sign passes. *)
Variable P : ascii -> bool.
Hypothesis P_space : forall c, PyStr.is_space c = true -> P c = false.
Hypothesis P_underscore : P "_" = false.
Hypothesis P_minus : P "-" = false.
Hypothesis P_plus : P "+" = false.





End Membership.

Lemma chars_of_chars (l : list ascii) : PyStr.chars (PyStr.of_chars l) = l.
Proof. apply list_ascii_of_string_of_list_ascii. Qed.



















(** ** Decimal arithmetic within the working precision *)

Lemma ndigits_aux_spec (fuel : nat) (n : Z) :
  0 < n -> Z.log2 n <= Z.of_nat fuel ->
  1 <= decimal.ndigits_aux fuel n
  /\ 10 ^ (decimal.ndigits_aux fuel n - 1) <= n < 10 ^ decimal.ndigits_aux fuel n.
Proof.
  revert n. induction fuel as [|f IH]; intros n Hn Hlog.
  - assert (n = 1) as ->.
    { assert (Z.log2 n = 0) as H0 by (pose proof (Z.log2_nonneg n); lia).
      apply Z.log2_null in H0. lia. }
    simpl. lia.
  - cbn [decimal.ndigits_aux]. destruct (n <? 10) eqn:H10.
    + apply Z.ltb_lt in H10. simpl. lia.
    + apply Z.ltb_ge in H10.
      assert (Hq : 0 < n / 10) by (apply Z.div_str_pos; lia).
      assert (Hlog' : Z.log2 (n / 10) <= Z.of_nat f).
      { assert (Z.log2 (2 * (n / 10)) <= Z.log2 n).
        { apply Z.log2_le_mono. pose proof (Z.mul_div_le n 10). lia. }
        rewrite Z.log2_double in H by lia. lia. }
      destruct (IH _ Hq Hlog') as (H1 & Hlo & Hhi).
      set (r := decimal.ndigits_aux f (n / 10)) in *.
      replace (1 + r - 1) with (Z.succ (r - 1)) by lia.
      replace (1 + r) with (Z.succ r) by lia.
      rewrite !Z.pow_succ_r by lia.
      pose proof (Z.mul_div_le n 10). pose proof (Z.mod_pos_bound n 10).
      pose proof (Z.div_mod n 10). lia.
Qed.

Lemma ndigits_spec (n : Z) :
  0 < n ->
  1 <= decimal.ndigits n
  /\ 10 ^ (decimal.ndigits n - 1) <= n < 10 ^ decimal.ndigits n.
Proof.
  intros Hn. apply ndigits_aux_spec; [done|].
  pose proof (Z.log2_nonneg n). lia.
Qed.

Lemma ndigits_le (n k : Z) : 0 < n -> n < 10 ^ k -> decimal.ndigits n <= k.
Proof.
  intros Hn Hk. destruct (ndigits_spec n Hn) as (H1 & Hlo & _).
  destruct (Z.le_gt_cases (decimal.ndigits n) k) as [|Hgt]; [done|].
  assert (0 <= k).
  { destruct (Z.le_gt_cases 0 k); [done|]. rewrite Z.pow_neg_r in Hk; lia. }
  assert (10 ^ k <= 10 ^ (decimal.ndigits n - 1)) by (apply Z.pow_le_mono_r; lia).
  lia.
Qed.

Lemma ndigits_ge (n k : Z) : 0 <= k -> 10 ^ k <= n -> k + 1 <= decimal.ndigits n.
Proof.
  intros Hk Hn. assert (0 < n) by (pose proof (Z.pow_pos_nonneg 10 k); lia).
  destruct (ndigits_spec n H) as (H1 & _ & Hhi).
  destruct (Z.le_gt_cases (k + 1) (decimal.ndigits n)) as [|Hgt]; [done|].
  assert (10 ^ decimal.ndigits n <= 10 ^ k) by (apply Z.pow_le_mono_r; lia).
  lia.
Qed.

(** A number that fits the context is left as it is. *)
Lemma fix_fits (s : bool) (c e : Z) :
  0 <= c < 10 ^ decimal.prec -> decimal.Etiny <= e <= 0 ->
  decimal._fix (decimal.Finite s c e) = Ok (decimal.Finite s c e).
Proof.
  intros [Hc Hlt] [He1 He2]. unfold decimal._fix.
  destruct (c =? 0) eqn:H0.
  - apply Z.eqb_eq in H0 as ->. do 2 f_equal.
    unfold decimal.Etiny, decimal.Emin, decimal.Emax, decimal.prec in *. lia.
  - apply Z.eqb_neq in H0.
    pose proof (ndigits_le c decimal.prec ltac:(lia) Hlt) as Hnd.
    destruct (ndigits_spec c ltac:(lia)) as (Hnd1 & _).
    cbv zeta.
    assert ((decimal.ndigits c + e - decimal.prec >? decimal.Etop) = false) as ->.
    { unfold decimal.Etop, decimal.Emax, decimal.prec in *. lia. }
    assert ((e <? Z.max (decimal.ndigits c + e - decimal.prec) decimal.Etiny) = false) as ->; [|done].
    apply Z.ltb_ge. lia.
Qed.

Lemma signed_abs (x : Z) : decimal.signed (x <? 0) (Z.abs x) = x.
Proof. unfold decimal.signed. destruct (x <? 0) eqn:H; lia. Qed.

Lemma abs_signed (s : bool) (c : Z) : 0 <= c -> Z.abs (decimal.signed s c) = c.
Proof. unfold decimal.signed. destruct s; lia. Qed.

Lemma signed_zero (s : bool) : decimal.signed s 0 = 0.
Proof. by destruct s. Qed.

Lemma pow10_pos (k : Z) : 0 <= k -> 0 < 10 ^ k.
Proof. intros. by apply Z.pow_pos_nonneg. Qed.

Lemma pow10_ge1 (k : Z) : 0 <= k -> 1 <= 10 ^ k.
Proof. intros. pose proof (pow10_pos k). lia. Qed.

(** Addition is exact as long as the sum has at most [prec] digits down
    to [10^E]. *)
Lemma add_exact (E : Z) (a b : decimal.Decimal) :
  decimal.Etiny <= E ->
  total_ok E a -> finite_above E b ->
  Z.abs (units E a + units E b) < 10 ^ decimal.prec ->
  exists t, decimal.add a b = Ok t /\ total_ok E t
            /\ units E t = units E a + units E b.
Proof.
  intros HE Ha Hb Hsum.
  destruct a as [sa ca ea| |]; try done. destruct b as [sb cb eb| |]; try done.
  destruct Ha as (Hca & Hea1 & Hea2). destruct Hb as (Hcb & Heb).
  cbn [units] in *. cbn [decimal.add]. cbv zeta.
  set (e := Z.min ea eb).
  set (tot := decimal.signed sa ca * 10 ^ (ea - e) + decimal.signed sb cb * 10 ^ (eb - e)).
  assert (Hu : tot * 10 ^ (e - E)
               = decimal.signed sa ca * 10 ^ (ea - E) + decimal.signed sb cb * 10 ^ (eb - E)).
  { unfold tot. rewrite Z.mul_add_distr_r, <- !Z.mul_assoc, <- !Z.pow_add_r by lia.
    by replace (ea - e + (e - E)) with (ea - E) by lia;
       replace (eb - e + (e - E)) with (eb - E) by lia. }
  assert (He : E <= e <= 0) by lia.
  destruct (tot =? 0) eqn:H0.
  - apply Z.eqb_eq in H0. eexists. split; [apply fix_fits|].
    + unfold decimal.prec. lia.
    + lia.
    + split; [cbn [total_ok]; lia|]. cbn [units]. rewrite <- Hu, H0.
      by rewrite signed_zero.
  - apply Z.eqb_neq in H0. eexists. split; [apply fix_fits|].
    + split; [lia|]. rewrite <- Hu, Z.abs_mul in Hsum.
      pose proof (pow10_ge1 (e - E) ltac:(lia)).
      rewrite (Z.abs_eq (10 ^ (e - E))) in Hsum by lia. nia.
    + lia.
    + split; [cbn [total_ok]; lia|]. cbn [units]. by rewrite signed_abs.
Qed.

Lemma rescaled_zero (e p : Z) : rescaled 0 e p = 0.
Proof.
  unfold rescaled, decimal.round_half_up. destruct (e >=? - p) eqn:H; [done|].
  assert (0 < - p - e) by lia.
  rewrite Z.div_0_l, Z.mod_0_l by (pose proof (pow10_pos (- p - e)); lia).
  pose proof (pow10_pos (- p - e) ltac:(lia)).
  destruct (2 * 0 >=? 10 ^ (- p - e)) eqn:Hh; [|done]. lia.
Qed.

(** The rounded coefficient stays below [10^(prec-1)] under the bound of
    [within_precision]. *)
Lemma rescaled_bound (E p c e : Z) :
  0 <= c -> E <= e <= 0 -> 0 <= p ->
  c * 10 ^ (e - E) * 10 ^ p < 10 ^ (decimal.prec - 1 - E) ->
  0 <= rescaled c e p <= 10 ^ (decimal.prec - 1).
Proof.
  intros Hc He Hp Hb. change (decimal.prec - 1) with 27.
  replace (decimal.prec - 1 - E) with (27 + - E) in Hb by (unfold decimal.prec; lia).
  rewrite Z.pow_add_r in Hb by lia.
  pose proof (pow10_pos (- E) ltac:(lia)) as HE.
  pose proof (pow10_pos 27 ltac:(lia)) as H27.
  unfold rescaled. destruct (e >=? - p) eqn:Hcase.
  - assert (0 <= e + p) by lia.
    assert (c * 10 ^ (e - E) * 10 ^ p = c * 10 ^ (e + p) * 10 ^ (- E)) as Heq.
    { rewrite <- !Z.mul_assoc, <- !Z.pow_add_r by lia. do 2 f_equal. lia. }
    rewrite Heq in Hb. pose proof (pow10_pos (e + p) ltac:(lia)). nia.
  - assert (Hk : 0 < - p - e) by lia.
    set (k := - p - e) in *. pose proof (pow10_pos k ltac:(lia)) as HT.
    assert (c * 10 ^ (e - E) * 10 ^ p = c * 10 ^ (- E - k)) as Heq.
    { rewrite <- !Z.mul_assoc, <- !Z.pow_add_r by lia. do 2 f_equal. lia. }
    rewrite Heq in Hb.
    assert (10 ^ (- E) = 10 ^ k * 10 ^ (- E - k)) as HEk.
    { rewrite <- Z.pow_add_r by lia. f_equal. lia. }
    rewrite HEk in Hb. pose proof (pow10_pos (- E - k) ltac:(lia)).
    assert (c < 10 ^ 27 * 10 ^ k) by nia.
    assert (c / 10 ^ k < 10 ^ 27) by (apply Z.div_lt_upper_bound; lia).
    assert (0 <= c / 10 ^ k) by (apply Z.div_pos; lia).
    unfold decimal.round_half_up. destruct (2 * (c mod 10 ^ k) >=? 10 ^ k); lia.
Qed.

(** Under that bound [quantize] succeeds and returns the rescaled
    coefficient. *)
Lemma quantize_exact (E p : Z) (s : bool) (c e : Z) :
  decimal.Etiny <= E -> 0 <= p <= - decimal.Etiny ->
  0 <= c -> E <= e <= 0 ->
  c * 10 ^ (e - E) * 10 ^ p < 10 ^ (decimal.prec - 1 - E) ->
  decimal.quantize (decimal.Finite s c e) (- p)
  = Ok (decimal.Finite s (rescaled c e p) (- p)).
Proof.
  intros HE Hp Hc He Hb.
  pose proof (rescaled_bound E p c e Hc He ltac:(lia) Hb) as Hr.
  assert (Hfix : forall c', 0 <= c' <= 10 ^ (decimal.prec - 1) ->
            decimal._fix (decimal.Finite s c' (- p)) = Ok (decimal.Finite s c' (- p))).
  { intros c' Hc'. apply fix_fits; [|lia]. unfold decimal.prec in *. simpl in *. lia. }
  unfold decimal.quantize.
  assert (((decimal.Etiny <=? - p) && (- p <=? decimal.Emax)) = true) as ->.
  { unfold decimal.Etiny, decimal.Emin, decimal.Emax, decimal.prec in *. lia. }
  cbn [negb]. destruct (c =? 0) eqn:H0.
  { apply Z.eqb_eq in H0 as ->. rewrite rescaled_zero. apply Hfix.
    unfold decimal.prec. simpl. lia. }
  apply Z.eqb_neq in H0.
  destruct (ndigits_spec c ltac:(lia)) as (Hnd1 & Hlo & _).
  assert (Hnd : decimal.ndigits c + e + p <= 27).
  { replace (decimal.prec - 1 - E) with (27 - E) in Hb by (unfold decimal.prec; lia).
    assert (10 ^ (decimal.ndigits c - 1) * 10 ^ (e - E) * 10 ^ p < 10 ^ (27 - E)).
    { pose proof (pow10_pos (e - E) ltac:(lia)). pose proof (pow10_pos p ltac:(lia)).
      eapply Z.le_lt_trans; [|exact Hb].
      apply Z.mul_le_mono_nonneg_r; [lia|]. apply Z.mul_le_mono_nonneg_r; lia. }
    rewrite <- !Z.pow_add_r in H by lia.
    apply Z.pow_lt_mono_r_iff in H; lia. }
  unfold decimal.adjusted.
  assert ((decimal.ndigits c + e - 1 >? decimal.Emax) = false) as ->.
  { unfold decimal.Emax. lia. }
  assert ((decimal.ndigits c + e - 1 - - p + 1 >? decimal.prec) = false) as ->.
  { unfold decimal.prec. lia. }
  unfold decimal._rescale. rewrite (proj2 (Z.eqb_neq c 0) H0).
  assert (Hres : (if e >=? - p then decimal.Finite s (c * 10 ^ (e - - p)) (- p)
                  else decimal.Finite s (decimal.round_half_up c (- p - e)) (- p))
                 = decimal.Finite s (rescaled c e p) (- p)).
  { unfold rescaled. destruct (e >=? - p); [|done]. do 3 f_equal. lia. }
  rewrite Hres.
  assert (Hnd' : decimal.ndigits (rescaled c e p) <= decimal.prec).
  { destruct (Z.eq_dec (rescaled c e p) 0) as [->|Hnz]; [done|].
    apply ndigits_le; [lia|]. unfold decimal.prec in *. simpl in *. lia. }
  assert ((decimal.ndigits (rescaled c e p) + - p - 1 >? decimal.Emax) = false) as ->.
  { unfold decimal.prec, decimal.Emax in *. lia. }
  assert ((decimal.ndigits (rescaled c e p) >? decimal.prec) = false) as -> by lia.
  by apply Hfix.
Qed.

(** ** Decimals as rational numbers *)

Lemma Qpow10_Z (k : Z) : 0 <= k -> (10 ^ k == inject_Z (10 ^ k))%Q.
Proof. intros Hk. symmetry. apply (Zpower_Qpower 10 k Hk). Qed.

Lemma Qpow10_add (a b : Z) : (10 ^ (a + b) == 10 ^ a * 10 ^ b)%Q.
Proof. apply Qpower_plus. discriminate. Qed.

Lemma Qpow10_pos (k : Z) : (0 < 10 ^ k)%Q.
Proof. apply Qpower_0_lt. reflexivity. Qed.

(** The same number at a lower exponent. *)
Lemma Qdec_shift (m e E : Z) :
  E <= e -> (inject_Z m * 10 ^ e == inject_Z (m * 10 ^ (e - E)) * 10 ^ E)%Q.
Proof.
  intros H. rewrite inject_Z_mult, <- (Qpow10_Z (e - E)) by lia.
  rewrite <- Qmult_assoc, <- Qpow10_add. by replace (e - E + E) with e by lia.
Qed.

Lemma Qvalue_units (E : Z) (d : decimal.Decimal) :
  finite_above E d -> (Qvalue d == inject_Z (units E d) * 10 ^ E)%Q.
Proof.
  destruct d as [s c e| |]; try done. intros [_ He]. by apply Qdec_shift.
Qed.

Lemma exact_sum_units (E : Z) (ds : list decimal.Decimal) :
  Forall (finite_above E) ds ->
  (exact_sum ds == inject_Z (units_sum E ds) * 10 ^ E)%Q.
Proof.
  induction 1 as [|d ds Hd _ IH]; cbn [exact_sum units_sum fold_right].
  - by rewrite Qmult_0_l.
  - fold (exact_sum ds). fold (units_sum E ds).
    rewrite IH, (Qvalue_units E d Hd), inject_Z_plus. ring.
Qed.

Lemma half_up_div (c T : Z) :
  0 <= c -> 0 < T ->
  (2 * c + T) / (2 * T) = c / T + (if 2 * (c mod T) >=? T then 1 else 0).
Proof.
  intros Hc HT. pose proof (Z.div_mod c T ltac:(lia)) as Hdm.
  pose proof (Z.mod_pos_bound c T HT) as Hr.
  destruct (2 * (c mod T) >=? T) eqn:Hh.
  - symmetry. apply (Z.div_unique _ _ _ (2 * (c mod T) - T)); [lia|]. lia.
  - symmetry. apply (Z.div_unique _ _ _ (2 * (c mod T) + T)); [lia|]. lia.
Qed.

Lemma round_half_up_div (c k : Z) :
  0 <= c -> 0 <= k ->
  decimal.round_half_up c k = (2 * c + 10 ^ k) / (2 * 10 ^ k).
Proof.
  intros Hc Hk. rewrite half_up_div by (pose proof (pow10_pos k Hk); lia).
  unfold decimal.round_half_up. cbv zeta.
  destruct (2 * (c mod 10 ^ k) >=? 10 ^ k); lia.
Qed.

Lemma Qfloor_half (c k : Z) :
  0 <= k ->
  Qfloor (inject_Z c * 10 ^ (- k) + (1 # 2))%Q = (2 * c + 10 ^ k) / (2 * 10 ^ k).
Proof.
  intros Hk. pose proof (pow10_pos k Hk) as HT.
  assert (Heq : (inject_Z c * 10 ^ (- k) + (1 # 2)
                 == (2 * c + 10 ^ k) # Z.to_pos (2 * 10 ^ k))%Q).
  { rewrite Qpower_opp, (Qpow10_Z k Hk).
    destruct (10 ^ k) as [|t|t] eqn:Ht; try lia.
    unfold Qeq, Qplus, Qmult, Qinv, inject_Z. simpl. lia. }
  rewrite Heq. unfold Qfloor. rewrite Z2Pos.id by lia. done.
Qed.

Lemma Q_round_half_up_comp (x y : Q) (p : Z) :
  (x == y)%Q -> (Q_round_half_up x p == Q_round_half_up y p)%Q.
Proof.
  intros H. unfold Q_round_half_up. cbv zeta.
  assert (Qle_bool 0 x = Qle_bool 0 y) as -> by (by rewrite H).
  assert (Qfloor (Qabs x * 10 ^ p + (1 # 2)) = Qfloor (Qabs y * 10 ^ p + (1 # 2))) as ->
    by (by rewrite H).
  reflexivity.
Qed.

Lemma Qabs_dec (s : bool) (c e : Z) :
  0 <= c ->
  (Qabs (inject_Z (decimal.signed s c) * 10 ^ e) == inject_Z c * 10 ^ e)%Q.
Proof.
  intros Hc. rewrite Qabs_Qmult.
  rewrite (Qabs_pos (10 ^ e)) by apply Qlt_le_weak, Qpow10_pos.
  assert (Qabs (inject_Z (decimal.signed s c)) = inject_Z c) as ->; [|reflexivity].
  unfold Qabs, inject_Z. by rewrite abs_signed.
Qed.

(** The floor in [Q_round_half_up] is the coefficient that [_rescale]
    computes. *)
Lemma floor_rescaled (s : bool) (c e p : Z) :
  0 <= c ->
  Qfloor (Qabs (Qvalue (decimal.Finite s c e)) * 10 ^ p + (1 # 2))%Q
  = rescaled c e p.
Proof.
  intros Hc. cbn [Qvalue]. unfold rescaled.
  destruct (e >=? - p) eqn:Hcase.
  - assert (Heq : (Qabs (inject_Z (decimal.signed s c) * 10 ^ e) * 10 ^ p + (1 # 2)
                   == inject_Z (c * 10 ^ (e + p)) * 10 ^ (- 0) + (1 # 2))%Q).
    { rewrite (Qabs_dec s c e Hc), <- Qmult_assoc, <- Qpow10_add.
      rewrite inject_Z_mult, <- (Qpow10_Z (e + p)) by lia.
      change (10 ^ (- 0))%Q with 1%Q. by rewrite Qmult_1_r. }
    rewrite Heq, Qfloor_half by lia. change (10 ^ 0) with 1.
    symmetry. apply (Z.div_unique _ _ _ 1); lia.
  - assert (Hk : 0 < - p - e) by lia.
    assert (Heq : (Qabs (inject_Z (decimal.signed s c) * 10 ^ e) * 10 ^ p + (1 # 2)
                   == inject_Z c * 10 ^ (- (- p - e)) + (1 # 2))%Q).
    { rewrite (Qabs_dec s c e Hc), <- Qmult_assoc, <- Qpow10_add.
      by replace (e + p) with (- (- p - e)) by lia. }
    rewrite Heq, Qfloor_half by lia. symmetry. apply round_half_up_div; lia.
Qed.

(** The quantized total denotes the total rounded half up. *)
Lemma quantized_value (s : bool) (c e p : Z) :
  0 <= c ->
  (Qvalue (decimal.Finite s (rescaled c e p) (- p))
   == Q_round_half_up (Qvalue (decimal.Finite s c e)) p)%Q.
Proof.
  intros Hc. unfold Q_round_half_up. cbv zeta.
  rewrite (floor_rescaled s c e p Hc). cbn [Qvalue].
  assert (Hpos : (0 <= inject_Z c * 10 ^ e)%Q).
  { apply Qmult_le_0_compat; [|apply Qlt_le_weak, Qpow10_pos].
    change 0%Q with (inject_Z 0). rewrite <- Zle_Qle. done. }
  destruct s; cbn [decimal.signed].
  - destruct (Z.eq_dec c 0) as [->|Hnz].
    + rewrite rescaled_zero. change (inject_Z (- 0)) with 0%Q.
      rewrite Qmult_0_l. destruct (Qle_bool 0 0); [by rewrite Qmult_0_l|].
      change (- inject_Z 0)%Q with 0%Q. by rewrite Qmult_0_l.
    + assert (Qle_bool 0 (inject_Z (- c) * 10 ^ e) = false) as ->.
      { destruct (Qle_bool 0 (inject_Z (- c) * 10 ^ e)) eqn:Hle; [|done].
        apply Qle_bool_iff in Hle. exfalso.
        assert (Hlt : (0 < inject_Z c * 10 ^ e)%Q).
        { apply Qmult_lt_0_compat; [|apply Qpow10_pos].
          change 0%Q with (inject_Z 0). rewrite <- Zlt_Qlt. lia. }
        rewrite inject_Z_opp in Hle.
        assert (Hneg : (- inject_Z c * 10 ^ e == - (inject_Z c * 10 ^ e))%Q) by ring.
        rewrite Hneg in Hle. apply Qopp_le_compat in Hle.
        rewrite Qopp_involutive in Hle. change (- 0)%Q with 0%Q in Hle.
        apply (Qlt_not_le _ _ Hlt Hle). }
      by rewrite inject_Z_opp.
  - by rewrite (proj2 (Qle_bool_iff _ _) Hpos).
Qed.

(** ** The aggregation loop *)

Lemma validate_total (value : string) (st : Runtime) :
  exists v st',
    NumberValidator.validate value st = (Ok v, st')
    /\ clock_reads st' = clock_reads st.
Proof.
  destruct (_cache st !! PyStr.strip value) as [r|] eqn:Hl.
  - exists r, st. by rewrite (validate_hit _ _ _ Hl).
  - exists (outcome value), (after_miss value st). by rewrite (validate_miss _ _ Hl).
Qed.

Lemma loop_body_unfold (w : World) (self : AdditionService.t) (start_time : Q)
  (idx : nat) (value : string) (l : AdditionService.locals) (st : Runtime) :
  AdditionService.loop_body w self start_time idx value l st =
  if Qle_bool (time_time w (clock_reads st) - start_time)%Q
              (AdditionService.timeout self)
  then
    match NumberValidator.validate value (tick st) with
    | (Ok v, st') => (step l idx v, st')
    | (Err e, st') => (Err e, st')
    end
  else (Err (TimeoutError (timeout_message w self)), tick st).
Proof.
  unfold AdditionService.loop_body, bind, now. fold (tick st).
  destruct (Qle_bool _ _); cbn [negb]; [|done].
  destruct (NumberValidator.validate value (tick st)) as [[v|e] st']; [|done].
  destruct v as [num ty|msg]; cbn [step]; [|done].
  by destruct (decimal.add _ _).
Qed.

Lemma step_counts (l l' : AdditionService.locals) (idx : nat) (v : validation) :
  step l idx v = Ok l' ->
  (AdditionService.processed l' + AdditionService.failed l'
   = S (AdditionService.processed l + AdditionService.failed l))%nat.
Proof.
  destruct v as [num ty|msg]; cbn [step].
  - destruct (decimal.add _ _); [|done]. intros [= <-]. simpl. lia.
  - intros [= <-]. simpl. lia.
Qed.

Lemma step_raises (l : AdditionService.locals) (idx : nat) (v : validation) (e : exn) :
  step l idx v = Err e -> is_Exception e = true /\ is_TimeoutError e = false.
Proof.
  destruct v as [num ty|msg]; cbn [step]; [|done].
  destruct (decimal.add _ _); [done|]. by intros [= <-].
Qed.

Lemma loop_body_counts (w : World) (self : AdditionService.t) (start_time : Q)
  (idx : nat) (value : string) (l l' : AdditionService.locals) (st st' : Runtime) :
  AdditionService.loop_body w self start_time idx value l st = (Ok l', st') ->
  (AdditionService.processed l' + AdditionService.failed l'
   = S (AdditionService.processed l + AdditionService.failed l))%nat.
Proof.
  rewrite loop_body_unfold. destruct (Qle_bool _ _); [|done].
  destruct (validate_total value (tick st)) as (v & st1 & -> & _).
  intros [= H _]. by apply step_counts in H.
Qed.

Lemma loop_body_raises (w : World) (self : AdditionService.t) (start_time : Q)
  (idx : nat) (value : string) (l : AdditionService.locals) (st st' : Runtime)
  (e : exn) :
  AdditionService.loop_body w self start_time idx value l st = (Err e, st') ->
  is_Exception e = true.
Proof.
  rewrite loop_body_unfold. destruct (Qle_bool _ _); [|by intros [= <- _]].
  destruct (validate_total value (tick st)) as (v & st1 & -> & _).
  intros [= H _]. by apply step_raises in H as [? _].
Qed.

(** Every item that the generator yields is counted once, as processed
    or as failed. *)
Lemma for_loop_counts (w : World) (self : AdditionService.t) (start_time : Q)
  (evs : list gen_event) (fin : option exn) (idx : nat)
  (l l' : AdditionService.locals) (st st' : Runtime) :
  AdditionService.for_loop w self start_time idx evs fin l st = (Ok l', st') ->
  (AdditionService.processed l' + AdditionService.failed l'
   = AdditionService.processed l + AdditionService.failed l + yields evs)%nat.
Proof.
  revert idx l st. induction evs as [|[value|lvl msg] evs IH]; intros idx l st;
    cbn [AdditionService.for_loop yields].
  - destruct fin; [done|]. intros [= <- _]. lia.
  - unfold bind.
    destruct (AdditionService.loop_body w self start_time idx value l st)
      as [[l1|e] st1] eqn:Hb; [|done].
    intros H%IH. apply loop_body_counts in Hb. lia.
  - unfold bind, logger. apply IH.
Qed.

(** The loop raises the exception that ends the generator, a timeout, or
    an exception of the decimal module. *)
Lemma for_loop_raises (w : World) (self : AdditionService.t) (start_time : Q)
  (evs : list gen_event) (fin : option exn) (idx : nat)
  (l : AdditionService.locals) (st st' : Runtime) (e : exn) :
  AdditionService.for_loop w self start_time idx evs fin l st = (Err e, st') ->
  is_Exception e = true \/ fin = Some e.
Proof.
  revert idx l st. induction evs as [|[value|lvl msg] evs IH]; intros idx l st;
    cbn [AdditionService.for_loop].
  - destruct fin; [|done]. intros [= <- _]. by right.
  - unfold bind.
    destruct (AdditionService.loop_body w self start_time idx value l st)
      as [[l1|e1] st1] eqn:Hb.
    + apply IH.
    + intros [= <- _]. left. by apply loop_body_raises in Hb.
  - unfold bind, logger. apply IH.
Qed.

(** The loop over a prefix of the events, then over the rest. *)
Lemma for_loop_app (w : World) (self : AdditionService.t) (start_time : Q)
  (pre evs : list gen_event) (fin : option exn) (idx : nat)
  (l : AdditionService.locals) (st : Runtime) :
  AdditionService.for_loop w self start_time idx (pre ++ evs) fin l st =
  match AdditionService.for_loop w self start_time idx pre None l st with
  | (Ok l', st') =>
      AdditionService.for_loop w self start_time (idx + yields pre) evs fin l' st'
  | (Err e, st') => (Err e, st')
  end.
Proof.
  revert idx l st. induction pre as [|[value|lvl msg] pre IH]; intros idx l st;
    cbn [AdditionService.for_loop yields app].
  - unfold ret. by rewrite Nat.add_0_r.
  - unfold bind.
    destruct (AdditionService.loop_body w self start_time idx value l st)
      as [[l1|e1] st1]; [|done].
    rewrite IH. by replace (S idx + yields pre)%nat with (idx + S (yields pre))%nat by lia.
  - unfold bind, logger. apply IH.
Qed.

(** ** The end of the [try] block and the handlers *)

Lemma failure_run (w : World) (source : InputSource.t) (start_time : Q)
  (msg : string) (st : Runtime) :
  AdditionService.failure w source start_time msg st =
  (Ok {| status := FAILURE; result := None; error_message := msg;
         processed_count := 0; failed_count := 0;
         execution_time := (time_time w (clock_reads st) - start_time)%Q;
         number_types := None;
         source := InputSource.class_name source |}, tick st).
Proof. done. Qed.

(** What the [try] block returns once the loop and the rounding have
    succeeded. *)
Lemma try_block_run (w : World) (self : AdditionService.t)
  (source : InputSource.t) (start_time : Q) (st st1 : Runtime)
  (l : AdditionService.locals) (target : Z) (q : decimal.Decimal) :
  AdditionService.for_loop w self start_time 0
    (events (InputSource.read source w)) (finish (InputSource.read source w))
    AdditionService.initial_locals st = (Ok l, st1) ->
  decimal.pow10_neg_exp (AdditionService.precision self) = Ok target ->
  decimal.quantize (AdditionService.total l) target = Ok q ->
  exists r self' st',
    AdditionService.try_block w self source start_time st = (Ok (r, self'), st')
    /\ status r = final_status l
    /\ result r = final_result l q
    /\ processed_count r = AdditionService.processed l
    /\ failed_count r = AdditionService.failed l.
Proof.
  intros Hloop Hpow Hq. unfold AdditionService.try_block, bind. cbv zeta.
  rewrite Hloop, Hpow, Hq. unfold final_status, final_result.
  destruct (AdditionService.failed l =? 0)%nat;
    [|destruct (AdditionService.processed l =? 0)%nat];
    cbn; eauto 10.
Qed.

Lemma try_block_ok (w : World) (self self' : AdditionService.t)
  (source : InputSource.t) (start_time : Q) (st st' : Runtime)
  (r : OperationResult) :
  AdditionService.try_block w self source start_time st = (Ok (r, self'), st') ->
  exists l st1 target q,
    AdditionService.for_loop w self start_time 0
      (events (InputSource.read source w)) (finish (InputSource.read source w))
      AdditionService.initial_locals st = (Ok l, st1)
    /\ decimal.pow10_neg_exp (AdditionService.precision self) = Ok target
    /\ decimal.quantize (AdditionService.total l) target = Ok q
    /\ status r = final_status l
    /\ result r = final_result l q
    /\ processed_count r = AdditionService.processed l
    /\ failed_count r = AdditionService.failed l.
Proof.
  intros H.
  destruct (AdditionService.for_loop w self start_time 0
              (events (InputSource.read source w))
              (finish (InputSource.read source w))
              AdditionService.initial_locals st) as [[l|e] st1] eqn:Hloop;
    [|by unfold AdditionService.try_block, bind in H; cbv zeta in H; rewrite Hloop in H].
  destruct (decimal.pow10_neg_exp (AdditionService.precision self))
    as [target|sig] eqn:Hpow;
    [|by unfold AdditionService.try_block, bind in H; cbv zeta in H;
         rewrite Hloop, Hpow in H].
  destruct (decimal.quantize (AdditionService.total l) target) as [q|sig] eqn:Hq;
    [|by unfold AdditionService.try_block, bind in H; cbv zeta in H;
         rewrite Hloop, Hpow, Hq in H].
  destruct (try_block_run w self source start_time st st1 l target q Hloop Hpow Hq)
    as (r0 & self0 & st0 & Hrun & Hr).
  rewrite Hrun in H. injection H as <- <- <-. eauto 10.
Qed.

Lemma try_block_raises (w : World) (self : AdditionService.t)
  (source : InputSource.t) (start_time : Q) (st st' : Runtime) (e : exn) :
  AdditionService.try_block w self source start_time st = (Err e, st') ->
  is_Exception e = true \/ finish (InputSource.read source w) = Some e.
Proof.
  unfold AdditionService.try_block, bind. cbv zeta.
  destruct (AdditionService.for_loop _ _ _ _ _ _ _ _) as [[l|e1] st1] eqn:Hloop.
  - destruct (decimal.pow10_neg_exp _); [|by intros [= <- _]; left].
    destruct (decimal.quantize _ _); [|by intros [= <- _]; left].
    destruct (AdditionService.failed l =? 0)%nat;
      [|destruct (AdditionService.processed l =? 0)%nat]; done.
  - intros [= <- _]. by apply for_loop_raises in Hloop.
Qed.

(** Both [except] clauses build a failure. *)
Lemma handlers_run (w : World) (self : AdditionService.t)
  (source : InputSource.t) (start_time : Q) (e : exn) (st : Runtime) :
  is_Exception e = true ->
  exists r st',
    AdditionService.handlers w self source start_time e st = (Ok (r, self), st')
    /\ status r = FAILURE /\ result r = None
    /\ processed_count r = 0%nat /\ failed_count r = 0%nat
    /\ error_message r =
         if is_TimeoutError e then exn_str w e
         else exn_type_name e +:+ ": " +:+ exn_str w e.
Proof.
  intros He. unfold AdditionService.handlers. rewrite He.
  destruct (is_TimeoutError e); unfold bind, logger; rewrite failure_run;
    cbn; eauto 10.
Qed.

Lemma add_from_source_accepted (w : World) (self : AdditionService.t)
  (source : InputSource.t) (st : Runtime) (msg : string) :
  InputSource.validate_source source w = Ok (true, msg) ->
  AdditionService.add_from_source w self source st =
  try_except
    (AdditionService.try_block w self source (time_time w (clock_reads st)))
    (AdditionService.handlers w self source (time_time w (clock_reads st)))
    (tick st).
Proof.
  intros H. unfold AdditionService.add_from_source, bind, now. fold (tick st).
  by rewrite H.
Qed.

Lemma add_from_source_rejected (w : World) (self : AdditionService.t)
  (source : InputSource.t) (st : Runtime) (msg : string) :
  InputSource.validate_source source w = Ok (false, msg) ->
  exists r st',
    AdditionService.add_from_source w self source st = (Ok (r, self), st')
    /\ status r = FAILURE /\ result r = None
    /\ processed_count r = 0%nat /\ failed_count r = 0%nat
    /\ error_message r = msg.
Proof.
  intros H. unfold AdditionService.add_from_source, bind, now, logger.
  rewrite H. cbn [negb]. rewrite failure_run. cbn. eauto 10.
Qed.

(** An exception of [validate_source] is raised before the [try] block:
    it reaches the caller. *)
Lemma add_from_source_escapes (w : World) (self : AdditionService.t)
  (source : InputSource.t) (st : Runtime) (e : exn) :
  InputSource.validate_source source w = Err e ->
  AdditionService.add_from_source w self source st = (Err e, tick st).
Proof.
  intros H. unfold AdditionService.add_from_source, bind, now. fold (tick st).
  by rewrite H.
Qed.

Lemma completes_returns (w : World) (self : AdditionService.t)
  (source : InputSource.t) (st : Runtime) (r : OperationResult) :
  completes w self source st r ->
  exists self' st',
    AdditionService.add_from_source w self source st = (Ok (r, self'), st').
Proof.
  intros ([msg Hv] & self' & st' & Ht). exists self', st'.
  rewrite (add_from_source_accepted _ _ _ _ msg) by done.
  unfold try_except. by rewrite Ht.
Qed.

(** A returned result comes from the end of the [try] block, or is a
    failure without a value. *)
Lemma add_from_source_cases (w : World) (self self' : AdditionService.t)
  (source : InputSource.t) (st st' : Runtime) (r : OperationResult) :
  AdditionService.add_from_source w self source st = (Ok (r, self'), st') ->
  completes w self source st r
  \/ (status r = FAILURE /\ result r = None
      /\ processed_count r = 0%nat /\ failed_count r = 0%nat).
Proof.
  destruct (InputSource.validate_source source w) as [[[|] msg]|e0] eqn:Hv.
  - rewrite (add_from_source_accepted _ _ _ _ msg) by done. unfold try_except.
    destruct (AdditionService.try_block _ _ _ _ _) as [[[r0 self0]|e] st0] eqn:Ht.
    + intros [= <- <- <-]. left. split; eauto.
    + destruct (is_Exception e) eqn:He.
      * destruct (handlers_run w self source (time_time w (clock_reads st)) e st0 He)
          as (r1 & st1 & -> & Hr). intros [= <- <- <-]. right. tauto.
      * unfold AdditionService.handlers. rewrite He.
        by destruct e.
  - destruct (add_from_source_rejected w self source st msg Hv)
      as (r1 & st1 & -> & Hr).
    intros [= <- <- <-]. right. tauto.
  - by rewrite (add_from_source_escapes _ _ _ _ e0).
Qed.

(** ** Counting, status and totality *)

(** At the end of the [try] block the two counters add up to the number
    of items that the generator yielded. *)
Lemma completes_counts (w : World) (self : AdditionService.t)
  (source : InputSource.t) (st : Runtime) (r : OperationResult) :
  completes w self source st r ->
  (processed_count r + failed_count r
   = yields (events (InputSource.read source w)))%nat.
Proof.
  intros (_ & self' & st' & Ht).
  apply try_block_ok in Ht as (l & st1 & target & q & Hloop & _ & _ & _ & _ & -> & ->).
  apply for_loop_counts in Hloop. simpl in Hloop. lia.
Qed.

(** C5, as the code has it. When a call runs to the end of the [try]
    block, that is when the source is accepted, the loop over the items
    ends without a timeout or an exception, and the rounding of the sum
    raises no signal, the result is the one the call returns, and its
    processed and failed counts add up to the number of items that the
    source yielded. *)
Theorem every_token_counted (w : World) (self : AdditionService.t)
  (source : InputSource.t) (st : Runtime) (r : OperationResult) :
  completes w self source st r ->
  (exists self' st',
     AdditionService.add_from_source w self source st = (Ok (r, self'), st'))
  /\ (processed_count r + failed_count r
      = yields (events (InputSource.read source w)))%nat.
Proof.
  intros Hc. split; [by apply completes_returns|].
  exact (completes_counts w self source st r Hc).
Qed.

Lemma every_token_counted_witness :
  exists r,
    completes still_world (AdditionService.new 2 30)
      (ListSource.new (PyList [SStr "1"; SStr "x"])) initial_runtime r
    /\ (processed_count r + failed_count r = 2)%nat.
Proof.
  assert (H : exists r,
             completes still_world (AdditionService.new 2 30)
               (ListSource.new (PyList [SStr "1"; SStr "x"])) initial_runtime r).
  { eexists. split; [eexists; reflexivity|]. do 2 eexists. vm_compute. reflexivity. }
  destruct H as [r Hr]. exists r. split; [exact Hr|].
  exact (proj2 (every_token_counted _ _ _ _ r Hr)).
Defined.

(** C5 as worded fails when the loop runs to its end and the rounding of
    the sum then raises: for the single literal 1e26 at precision 2 the
    loop counts one processed item, quantize signals InvalidOperation, and
    the returned failure has both counts at zero. *)
Lemma rounding_failure_loses_counts :
  (exists l st1,
     AdditionService.for_loop still_world (AdditionService.new 2 30) 0 0
       [GYield "1e26"] None AdditionService.initial_locals (tick initial_runtime)
     = (Ok l, st1)
     /\ AdditionService.processed l = 1%nat /\ AdditionService.failed l = 0%nat)
  /\ ~ claimed_every_token_counted still_world (AdditionService.new 2 30)
        (ListSource.new (PyList [SStr "1e26"])) initial_runtime.
Proof.
  split.
  - do 2 eexists. split; [vm_compute; reflexivity|]. split; reflexivity.
  - intros H.
    assert (Hloop : exists l st1,
               AdditionService.for_loop still_world (AdditionService.new 2 30) 0 0
                 [GYield "1e26"] None AdditionService.initial_locals
                 (tick initial_runtime) = (Ok l, st1))
      by (do 2 eexists; vm_compute; reflexivity).
    assert (Hcall : exists r self' st',
               AdditionService.add_from_source still_world (AdditionService.new 2 30)
                 (ListSource.new (PyList [SStr "1e26"])) initial_runtime
               = (Ok (r, self'), st')
               /\ processed_count r = 0%nat /\ failed_count r = 0%nat)
      by (do 3 eexists; split; [vm_compute; reflexivity|]; split; reflexivity).
    destruct Hloop as (l & st1 & Hloop).
    destruct Hcall as (r & self' & st' & Hcall & Hp & Hf).
    specialize (H "Valid" l st1 r self' st' eq_refl Hloop Hcall).
    rewrite Hp, Hf in H. cbn in H. discriminate H.
Qed.

Lemma final_status_rule (l : AdditionService.locals) (q : decimal.Decimal) :
  (final_status l = SUCCESS <-> AdditionService.failed l = 0%nat)
  /\ (final_status l = FAILURE <->
        (1 <= AdditionService.failed l)%nat /\ AdditionService.processed l = 0%nat)
  /\ (final_status l = PARTIAL <->
        (1 <= AdditionService.failed l)%nat /\ (1 <= AdditionService.processed l)%nat)
  /\ (is_Some (final_result l q) <->
        final_status l = SUCCESS \/ final_status l = PARTIAL).
Proof.
  unfold final_status, final_result.
  destruct (AdditionService.failed l =? 0)%nat eqn:Hf;
    [apply Nat.eqb_eq in Hf | apply Nat.eqb_neq in Hf;
     destruct (AdditionService.processed l =? 0)%nat eqn:Hp;
     [apply Nat.eqb_eq in Hp | apply Nat.eqb_neq in Hp]].
  all: repeat split; try (intros; lia); try done; try (intros [? ?]; lia);
    try (by intros [?|?]); eauto.
  all: try (intros _; by inversion 1).
  all: try (by intros [? ?]%is_Some_alt).
Qed.

(** C2, as the code has it. Every returned result carries a value exactly
    when its status is Success or Partial. When the call runs to the end
    of the [try] block, the status is Success exactly when no item
    failed, Failure exactly when some item failed and none was processed,
    Partial exactly when some failed and some were processed; and as soon
    as the source yielded one item, Success also means that an item was
    processed and Failure is the same as no item processed. *)
Theorem returned_status_rule (w : World) (self self' : AdditionService.t)
  (source : InputSource.t) (st st' : Runtime) (r : OperationResult) :
  AdditionService.add_from_source w self source st = (Ok (r, self'), st') ->
  (is_Some (result r) <-> status r = SUCCESS \/ status r = PARTIAL)
  /\ (completes w self source st r ->
      (status r = SUCCESS <-> failed_count r = 0%nat)
      /\ (status r = FAILURE <->
            (1 <= failed_count r)%nat /\ processed_count r = 0%nat)
      /\ (status r = PARTIAL <->
            (1 <= failed_count r)%nat /\ (1 <= processed_count r)%nat)
      /\ ((1 <= yields (events (InputSource.read source w)))%nat ->
          claimed_status_rule r)).
Proof.
  intros Hrun.
  assert (Hdone : completes w self source st r ->
            exists l q, status r = final_status l /\ result r = final_result l q
                        /\ processed_count r = AdditionService.processed l
                        /\ failed_count r = AdditionService.failed l
                        /\ (processed_count r + failed_count r
                            = yields (events (InputSource.read source w)))%nat).
  { intros Hc. pose proof (completes_counts _ _ _ _ _ Hc) as Hn.
    destruct Hc as (_ & self0 & st0 & Ht).
    apply try_block_ok in Ht as (l & st1 & target & q & _ & _ & _ & ? & ? & ? & ?).
    exists l, q. tauto. }
  split.
  - destruct (add_from_source_cases _ _ _ _ _ _ _ Hrun) as [Hc|(Hs & Hr & _)].
    + destruct (Hdone Hc) as (l & q & -> & -> & _).
      apply (final_status_rule l q).
    + rewrite Hs, Hr. split; [by intros [? ?] | by intros [?|?]].
  - intros Hc. destruct (Hdone Hc) as (l & q & Hs & Hr & Hp & Hf & Hn).
    destruct (final_status_rule l q) as (H1 & H2 & H3 & H4).
    rewrite Hs, Hp, Hf. split; [done|]. split; [done|]. split; [done|].
    intros Hy. unfold claimed_status_rule. rewrite Hs, Hr, Hp, Hf.
    rewrite Hp, Hf in Hn.
    split; [rewrite H1; lia|]. split; [rewrite H2; lia|].
    split; [|split; [|done]].
    + intros Hfail. apply H2 in Hfail as [Hf1 Hp0].
      unfold final_result. rewrite Hp0.
      destruct (AdditionService.failed l =? 0)%nat eqn:E; [|done].
      apply Nat.eqb_eq in E. lia.
    + intros Hpart. apply H4. by right.
Qed.

Lemma returned_status_rule_witness :
  exists r self' st',
    AdditionService.add_from_source still_world (AdditionService.new 2 30)
      (ListSource.new (PyList [SStr "1"; SStr "x"])) initial_runtime
    = (Ok (r, self'), st')
    /\ completes still_world (AdditionService.new 2 30)
         (ListSource.new (PyList [SStr "1"; SStr "x"])) initial_runtime r
    /\ (is_Some (result r) <-> status r = SUCCESS \/ status r = PARTIAL)
    /\ (status r = PARTIAL <->
          (1 <= failed_count r)%nat /\ (1 <= processed_count r)%nat)
    /\ claimed_status_rule r.
Proof.
  assert (H : exists r self' st',
             AdditionService.add_from_source still_world (AdditionService.new 2 30)
               (ListSource.new (PyList [SStr "1"; SStr "x"])) initial_runtime
             = (Ok (r, self'), st')
             /\ completes still_world (AdditionService.new 2 30)
                  (ListSource.new (PyList [SStr "1"; SStr "x"])) initial_runtime r).
  { do 3 eexists. split; [vm_compute; reflexivity|].
    split; [eexists; reflexivity|]. do 2 eexists. vm_compute. reflexivity. }
  destruct H as (r & self' & st' & H & Hc). exists r, self', st'.
  destruct (returned_status_rule _ _ _ _ _ _ _ H) as [H1 H2].
  destruct (H2 Hc) as (_ & _ & H3 & H4).
  split; [exact H|]. split; [exact Hc|]. split; [exact H1|]. split; [exact H3|].
  apply H4. cbn. lia.
Defined.

(** C2 as worded fails on a source that is accepted and yields nothing:
    the call succeeds with a zero sum although no item was processed. *)
Lemma empty_stream_succeeds :
  match returned (AdditionService.add_from_source still_world
                    (AdditionService.new 2 30) silent_source initial_runtime) with
  | Some (r, _) =>
      completes still_world (AdditionService.new 2 30) silent_source
        initial_runtime r
      /\ status r = SUCCESS /\ processed_count r = 0%nat
      /\ ~ claimed_status_rule r
  | None => False
  end.
Proof.
  vm_compute returned. split; [|split; [done|split; [done|]]].
  - split; [eexists; reflexivity|]. do 2 eexists. vm_compute. reflexivity.
  - intros (H & _). cbn in H. destruct H as [H _]. specialize (H eq_refl). lia.
Qed.




(** C6. When the source is accepted and the loop reaches an item at whose
    check the elapsed time exceeds the timeout, the call returns Failure
    without a value, with zero counts and with the timeout message,
    whatever was summed before. *)
Theorem timeout_aborts (w : World) (self : AdditionService.t)
  (source : InputSource.t) (st st1 : Runtime)
  (pre post : list gen_event) (value : string) (l : AdditionService.locals)
  (msg : string) :
  InputSource.validate_source source w = Ok (true, msg) ->
  events (InputSource.read source w) = pre ++ GYield value :: post ->
  AdditionService.for_loop w self (time_time w (clock_reads st)) 0 pre None
    AdditionService.initial_locals (tick st) = (Ok l, st1) ->
  Qle_bool (time_time w (clock_reads st1) - time_time w (clock_reads st))%Q
           (AdditionService.timeout self) = false ->
  exists r st',
    AdditionService.add_from_source w self source st = (Ok (r, self), st')
    /\ status r = FAILURE /\ result r = None
    /\ error_message r = timeout_message w self
    /\ processed_count r = 0%nat /\ failed_count r = 0%nat.
Proof.
  intros Hv Hev Hpre Hlate.
  rewrite (add_from_source_accepted _ _ _ _ msg) by done. unfold try_except.
  assert (Ht : AdditionService.try_block w self source (time_time w (clock_reads st))
                 (tick st)
               = (Err (TimeoutError (timeout_message w self)), tick st1)).
  { unfold AdditionService.try_block, bind. cbv zeta.
    rewrite Hev, for_loop_app, Hpre. cbn [AdditionService.for_loop]. unfold bind.
    by rewrite loop_body_unfold, Hlate. }
  rewrite Ht.
  destruct (handlers_run w self source (time_time w (clock_reads st))
              (TimeoutError (timeout_message w self)) (tick st1) eq_refl)
    as (r & st' & -> & Hs & Hr & Hp & Hf & Hm).
  exists r, st'. cbn in Hm. tauto.
Qed.

Lemma timeout_aborts_witness :
  exists r st',
    AdditionService.add_from_source late_world (AdditionService.new 2 30)
      (ListSource.new (PyList [SStr "1"; SStr "2"])) initial_runtime
    = (Ok (r, AdditionService.new 2 30), st')
    /\ status r = FAILURE /\ result r = None
    /\ error_message r = "Operation timeout after 30.0s"
    /\ processed_count r = 0%nat /\ failed_count r = 0%nat.
Proof.
  eapply (timeout_aborts late_world (AdditionService.new 2 30)
            (ListSource.new (PyList [SStr "1"; SStr "2"])) initial_runtime _
            [GYield "1"] [] "2" _ "Valid").
  - reflexivity.
  - reflexivity.
  - vm_compute. reflexivity.
  - vm_compute. reflexivity.
Defined.

(** ** Summation of a list of literals *)

Lemma valid_values_cons (s : string) (lits : list string) :
  valid_values (s :: lits) =
  match outcome s with
  | Valid d _ => d :: valid_values lits
  | Invalid _ => valid_values lits
  end.
Proof. unfold valid_values. cbn [omap list_omap]. by destruct (outcome s). Qed.

Lemma magnitude_nonneg (E : Z) (ds : list decimal.Decimal) : 0 <= magnitude E ds.
Proof. induction ds as [|d ds IH]; cbn [magnitude fold_right]; [done|]. fold (magnitude E ds). lia. Qed.

Lemma units_sum_bound (E : Z) (ds : list decimal.Decimal) :
  Z.abs (units_sum E ds) <= magnitude E ds.
Proof.
  induction ds as [|d ds IH]; cbn [magnitude units_sum fold_right]; [done|].
  fold (magnitude E ds). fold (units_sum E ds). lia.
Qed.

Lemma tick_coherent (st : Runtime) : cache_coherent st -> cache_coherent (tick st).
Proof. done. Qed.

(** The loop over a list of literals, without timeout and within the
    working precision: the total is the exact sum of the valid entries,
    which are the processed ones. *)
Lemma for_loop_list (w : World) (self : AdditionService.t) (start_time : Q)
  (E : Z) (lits : list string) :
  decimal.Etiny <= E ->
  forall (idx : nat) (l : AdditionService.locals) (st : Runtime),
  cache_coherent st ->
  (forall i, (i < length lits)%nat ->
     Qle_bool (time_time w (clock_reads st + i) - start_time)%Q
              (AdditionService.timeout self) = true) ->
  total_ok E (AdditionService.total l) ->
  Forall (finite_above E) (valid_values lits) ->
  Z.abs (units E (AdditionService.total l)) + magnitude E (valid_values lits)
    < 10 ^ decimal.prec ->
  exists l' st',
    AdditionService.for_loop w self start_time idx (map GYield lits) None l st
    = (Ok l', st')
    /\ cache_coherent st'
    /\ total_ok E (AdditionService.total l')
    /\ units E (AdditionService.total l')
       = units E (AdditionService.total l) + units_sum E (valid_values lits)
    /\ AdditionService.processed l'
       = (AdditionService.processed l + length (valid_values lits))%nat
    /\ (AdditionService.processed l' + AdditionService.failed l'
        = AdditionService.processed l + AdditionService.failed l + length lits)%nat.
Proof.
  intros HE. induction lits as [|s lits IH]; intros idx l st Hc Ht Hl Hfin Hmag.
  - exists l, st. cbn. repeat split; try done; lia.
  - cbn [map AdditionService.for_loop]. unfold bind. rewrite loop_body_unfold.
    pose proof (Ht 0%nat ltac:(cbn; lia)) as Hnow.
    rewrite Nat.add_0_r in Hnow. rewrite Hnow.
    destruct (validate_outcome s (tick st) (tick_coherent _ Hc))
      as (st1 & -> & Hc1 & Hclock).
    assert (Ht1 : forall i, (i < length lits)%nat ->
              Qle_bool (time_time w (clock_reads st1 + i) - start_time)%Q
                       (AdditionService.timeout self) = true).
    { intros i Hi. rewrite Hclock. cbn [tick clock_reads].
      replace (S (clock_reads st) + i)%nat with (clock_reads st + S i)%nat by lia.
      apply Ht. cbn. lia. }
    rewrite valid_values_cons in Hfin, Hmag |- *.
    destruct (outcome s) as [d ty|msg]; cbn [step].
    + apply Forall_cons in Hfin as [Hd Hfin].
      cbn [magnitude fold_right] in Hmag. fold (magnitude E (valid_values lits)) in Hmag.
      pose proof (magnitude_nonneg E (valid_values lits)).
      destruct (add_exact E (AdditionService.total l) d HE Hl Hd ltac:(lia))
        as (t & -> & Htok & Hu).
      destruct (IH (S idx) (after_valid l t ty) st1 Hc1 Ht1 Htok Hfin)
        as (l' & st' & -> & ? & ? & Hu' & Hp' & Hn').
      { cbn [after_valid AdditionService.total]. rewrite Hu. lia. }
      exists l', st'. cbn [after_valid AdditionService.total
                            AdditionService.processed AdditionService.failed] in *.
      cbn [units_sum fold_right length]. fold (units_sum E (valid_values lits)).
      repeat split; try done; lia.
    + destruct (IH (S idx) (after_invalid l idx msg) st1 Hc1 Ht1 Hl Hfin Hmag)
        as (l' & st' & -> & ? & ? & Hu' & Hp' & Hn').
      exists l', st'. cbn [after_invalid AdditionService.total
                            AdditionService.processed AdditionService.failed] in *.
      cbn [length]. repeat split; try done; lia.
Qed.

Lemma list_source_events (numbers : list scalar) (w : World) :
  events (InputSource.read (ListSource.new (PyList numbers)) w)
  = map GYield (map str numbers)
  /\ finish (InputSource.read (ListSource.new (PyList numbers)) w) = None.
Proof. cbn. by rewrite map_map. Qed.

(** The call on a non-empty list, without timeout and within the working
    precision. *)
Lemma aggregate_list (w : World) (self : AdditionService.t) (st : Runtime)
  (numbers : list scalar) (E : Z) :
  cache_coherent st ->
  numbers <> [] ->
  no_timeout w self st (length numbers) ->
  within_precision E (AdditionService.precision self)
    (valid_values (map str numbers)) ->
  exists r self' st' sg c,
    AdditionService.add_numbers w self (PyList numbers) st = (Ok (r, self'), st')
    /\ processed_count r = length (valid_values (map str numbers))
    /\ (processed_count r + failed_count r = length numbers)%nat
    /\ status r = (if (failed_count r =? 0)%nat then SUCCESS
                   else if (processed_count r =? 0)%nat then FAILURE else PARTIAL)
    /\ result r = (if (failed_count r =? 0)%nat
                   then Some (decimal.Finite sg c (- AdditionService.precision self))
                   else if (processed_count r =? 0)%nat then None
                   else Some (decimal.Finite sg c (- AdditionService.precision self)))
    /\ (Qvalue (decimal.Finite sg c (- AdditionService.precision self))
        == Q_round_half_up (exact_sum (valid_values (map str numbers)))
             (AdditionService.precision self))%Q.
Proof.
  intros Hc Hne Hnt (HE & Hp & Hfin & Hmag & Hround).
  set (p := AdditionService.precision self) in *.
  set (vv := valid_values (map str numbers)) in *.
  unfold AdditionService.add_numbers.
  assert (Hv : InputSource.validate_source (ListSource.new (PyList numbers)) w
               = Ok (true, "Valid")).
  { cbn. by destruct numbers. }
  rewrite (add_from_source_accepted _ _ _ _ "Valid") by done. unfold try_except.
  destruct (list_source_events numbers w) as [Hev Hfinish].
  pose proof (magnitude_nonneg E vv) as Hm0.
  destruct (for_loop_list w self (time_time w (clock_reads st)) E (map str numbers)
              ltac:(lia) 0%nat AdditionService.initial_locals (tick st))
    as (l & st1 & Hloop & _ & Hl & Hu & Hproc & Hcount).
  { by apply tick_coherent. }
  { intros i Hi. rewrite length_map in Hi. apply (Hnt i Hi). }
  { cbn. lia. }
  { done. }
  { cbn [AdditionService.initial_locals AdditionService.total units].
    rewrite signed_zero. fold vv. lia. }
  rewrite <- Hev, <- Hfinish in Hloop.
  cbn [AdditionService.initial_locals AdditionService.total
       AdditionService.processed AdditionService.failed units] in Hu, Hproc, Hcount.
  rewrite signed_zero in Hu. rewrite length_map in Hcount. fold vv in Hu, Hproc.
  destruct (AdditionService.total l) as [sg c e| |] eqn:Htot; try done.
  destruct Hl as (Hc0 & He).
  assert (Hpow : decimal.pow10_neg_exp p = Ok (- p)).
  { unfold decimal.pow10_neg_exp. replace (0 <=? p) with true by lia.
    f_equal. lia. }
  assert (Habs : c * 10 ^ (e - E) = Z.abs (units_sum E vv)).
  { cbn [units] in Hu. rewrite <- (abs_signed sg c Hc0), <- (Z.abs_eq (10 ^ (e - E))),
      <- Z.abs_mul by (pose proof (pow10_pos (e - E)); lia).
    f_equal. lia. }
  assert (Hq : decimal.quantize (AdditionService.total l) (- p)
               = Ok (decimal.Finite sg (rescaled c e p) (- p))).
  { rewrite Htot. apply (quantize_exact E); try lia.
    rewrite Habs. pose proof (units_sum_bound E vv).
    pose proof (pow10_pos p ltac:(lia)). nia. }
  destruct (try_block_run w self (ListSource.new (PyList numbers))
              (time_time w (clock_reads st)) (tick st) st1 l (- p) _ Hloop Hpow Hq)
    as (r & self' & st' & -> & Hs & Hr & Hrp & Hrf).
  exists r, self', st', sg, (rescaled c e p).
  split; [done|]. rewrite Hrp, Hrf, Hs, Hr.
  split; [lia|]. split; [lia|]. split; [done|]. split; [done|].
  rewrite (quantized_value sg c e p Hc0). apply Q_round_half_up_comp.
  rewrite (exact_sum_units E vv Hfin), <- Htot.
  rewrite (Qvalue_units E (AdditionService.total l)) by (rewrite Htot; cbn; lia).
  rewrite Htot, Hu. by rewrite Z.mul_0_l, Z.add_0_l.
Qed.

(** ** Sums of valid entries *)

Lemma valid_values_le (lits : list string) :
  (length (valid_values lits) <= length lits)%nat.
Proof.
  induction lits as [|s lits IH]; [done|]. rewrite valid_values_cons.
  destruct (outcome s); cbn [length]; lia.
Qed.

Lemma valid_values_all (lits : list string) :
  Forall (fun s => is_valid (outcome s) = true) lits ->
  length (valid_values lits) = length lits.
Proof.
  induction 1 as [|s lits Hs _ IH]; [done|]. rewrite valid_values_cons.
  destruct (outcome s); [|done]. cbn [length]. lia.
Qed.

Lemma valid_values_some (lits : list string) :
  Exists (fun s => is_valid (outcome s) = true) lits ->
  (1 <= length (valid_values lits))%nat.
Proof.
  induction 1 as [s lits Hs|s lits _ IH]; rewrite valid_values_cons;
    destruct (outcome s); cbn [length]; try done; lia.
Qed.

Lemma valid_values_not_all (lits : list string) :
  Exists (fun s => is_valid (outcome s) = false) lits ->
  (length (valid_values lits) < length lits)%nat.
Proof.
  induction 1 as [s lits Hs|s lits _ IH]; rewrite valid_values_cons;
    pose proof (valid_values_le lits);
    destruct (outcome s); cbn [length]; try done; lia.
Qed.

(** C1, as the code has it. For every non-empty list whose entries are all
    valid literals, when no timeout occurs and the values are finite and
    fit the working precision, the call returns Success, counts every
    entry as processed and none as failed, and its result has exponent
    minus the precision and denotes the exact sum rounded half up. *)
Theorem valid_list_sum (w : World) (self : AdditionService.t) (st : Runtime)
  (numbers : list scalar) (E : Z) :
  cache_coherent st ->
  numbers <> [] ->
  no_timeout w self st (length numbers) ->
  within_precision E (AdditionService.precision self)
    (valid_values (map str numbers)) ->
  Forall (fun s => is_valid (outcome s) = true) (map str numbers) ->
  exists r self' st' sg c,
    AdditionService.add_numbers w self (PyList numbers) st = (Ok (r, self'), st')
    /\ processed_count r = length numbers
    /\ failed_count r = 0%nat
    /\ status r = SUCCESS
    /\ result r = Some (decimal.Finite sg c (- AdditionService.precision self))
    /\ (Qvalue (decimal.Finite sg c (- AdditionService.precision self))
        == Q_round_half_up (exact_sum (valid_values (map str numbers)))
             (AdditionService.precision self))%Q.
Proof.
  intros Hc Hne Hnt Hw Hall.
  destruct (aggregate_list w self st numbers E Hc Hne Hnt Hw)
    as (r & self' & st' & sg & c & Hrun & Hp & Hn & Hs & Hr & Hq).
  apply valid_values_all in Hall. rewrite length_map in Hall.
  assert (Hf : failed_count r = 0%nat) by lia.
  rewrite Hf in Hs, Hr. cbn in Hs, Hr.
  exists r, self', st', sg, c. repeat split; try done; lia.
Qed.

(** C3, as the code has it. For every list with a valid and an invalid
    entry, when no timeout occurs and the valid values are finite and fit
    the working precision, the call returns Partial, counts the valid
    entries as processed and the others as failed, and its result denotes
    the exact sum of the valid entries rounded half up. *)
Theorem mixed_list_sum (w : World) (self : AdditionService.t) (st : Runtime)
  (numbers : list scalar) (E : Z) :
  cache_coherent st ->
  no_timeout w self st (length numbers) ->
  within_precision E (AdditionService.precision self)
    (valid_values (map str numbers)) ->
  Exists (fun s => is_valid (outcome s) = true) (map str numbers) ->
  Exists (fun s => is_valid (outcome s) = false) (map str numbers) ->
  exists r self' st' sg c,
    AdditionService.add_numbers w self (PyList numbers) st = (Ok (r, self'), st')
    /\ status r = PARTIAL
    /\ processed_count r = length (valid_values (map str numbers))
    /\ (processed_count r + failed_count r = length numbers)%nat
    /\ (1 <= failed_count r)%nat
    /\ result r = Some (decimal.Finite sg c (- AdditionService.precision self))
    /\ (Qvalue (decimal.Finite sg c (- AdditionService.precision self))
        == Q_round_half_up (exact_sum (valid_values (map str numbers)))
             (AdditionService.precision self))%Q.
Proof.
  intros Hc Hnt Hw Hsome Hbad.
  assert (Hne : numbers <> []) by (intros ->; inversion Hsome).
  destruct (aggregate_list w self st numbers E Hc Hne Hnt Hw)
    as (r & self' & st' & sg & c & Hrun & Hp & Hn & Hs & Hr & Hq).
  apply valid_values_some in Hsome. apply valid_values_not_all in Hbad.
  rewrite length_map in Hbad.
  assert (Hf : (failed_count r =? 0)%nat = false) by (apply Nat.eqb_neq; lia).
  assert (Hp0 : (processed_count r =? 0)%nat = false) by (apply Nat.eqb_neq; lia).
  rewrite Hf, Hp0 in Hs, Hr.
  exists r, self', st', sg, c. repeat split; try done; lia.
Qed.

Lemma valid_list_sum_witness :
  exists r self' st' sg c,
    AdditionService.add_numbers still_world (AdditionService.new 2 30)
      (PyList [SStr "1.005"; SStr "1.005"]) initial_runtime = (Ok (r, self'), st')
    /\ processed_count r = 2%nat
    /\ failed_count r = 0%nat
    /\ status r = SUCCESS
    /\ result r = Some (decimal.Finite sg c (- 2))
    /\ (Qvalue (decimal.Finite sg c (- 2))
        == Q_round_half_up
             (exact_sum (valid_values (map str [SStr "1.005"; SStr "1.005"]))) 2)%Q.
Proof.
  apply (valid_list_sum still_world (AdditionService.new 2 30) initial_runtime
           [SStr "1.005"; SStr "1.005"] (- 3)).
  - intros k r H. vm_compute in H. discriminate.
  - discriminate.
  - intros i _. reflexivity.
  - vm_compute. repeat split; try discriminate; repeat constructor; discriminate.
  - repeat constructor.
Defined.

Lemma mixed_list_sum_witness :
  exists r self' st' sg c,
    AdditionService.add_numbers still_world (AdditionService.new 2 30)
      (PyList [SStr "2.5"; SStr "abc"; SInt 4]) initial_runtime = (Ok (r, self'), st')
    /\ status r = PARTIAL
    /\ processed_count r = 2%nat
    /\ (processed_count r + failed_count r = 3)%nat
    /\ (1 <= failed_count r)%nat
    /\ result r = Some (decimal.Finite sg c (- 2))
    /\ (Qvalue (decimal.Finite sg c (- 2))
        == Q_round_half_up
             (exact_sum (valid_values (map str [SStr "2.5"; SStr "abc"; SInt 4]))) 2)%Q.
Proof.
  apply (mixed_list_sum still_world (AdditionService.new 2 30) initial_runtime
           [SStr "2.5"; SStr "abc"; SInt 4] (- 1)).
  - intros k r H. vm_compute in H. discriminate.
  - intros i _. reflexivity.
  - vm_compute. repeat split; try discriminate; repeat constructor; discriminate.
  - apply Exists_cons_hd. reflexivity.
  - apply Exists_cons_tl, Exists_cons_hd. reflexivity.
Defined.

(** C1 as worded fails: a single valid literal with 27 digits before the
    point cannot be rounded to two places within 28 digits, the empty
    list is rejected, the literal Infinity validates and then breaks the
    rounding, and a timeout discards everything. *)
Lemma sum_of_valid_fails :
  ~ claimed_sum_of_valid still_world (AdditionService.new 2 30) initial_runtime
      [SStr "1e26"]
  /\ ~ claimed_sum_of_valid still_world (AdditionService.new 2 30) initial_runtime []
  /\ ~ claimed_sum_of_valid still_world (AdditionService.new 2 30) initial_runtime
        [SStr "Infinity"]
  /\ ~ claimed_sum_of_valid late_world (AdditionService.new 2 30) initial_runtime
        [SStr "1"; SStr "2"].
Proof.
  repeat split; intros H;
    (destruct H as (r & self' & st' & d & Hrun & _ & _ & Hs & _);
     [repeat constructor|]);
    vm_compute in Hrun; injection Hrun as <- _ _; discriminate Hs.
Qed.

(** C3 as worded fails in the same ways, with an invalid entry added. *)
Lemma partial_sum_fails :
  ~ claimed_partial_sum still_world (AdditionService.new 2 30) initial_runtime
      [SStr "1e26"; SStr "abc"]
  /\ ~ claimed_partial_sum still_world (AdditionService.new 2 30) initial_runtime
        [SStr "Infinity"; SStr "abc"]
  /\ ~ claimed_partial_sum late_world (AdditionService.new 2 30) initial_runtime
        [SStr "1"; SStr "abc"].
Proof.
  repeat split; intros H;
    (destruct H as (r & self' & st' & d & Hrun & Hs & _);
     [apply Exists_cons_hd; reflexivity
     |apply Exists_cons_tl, Exists_cons_hd; reflexivity|]);
    vm_compute in Hrun; injection Hrun as <- _ _; discriminate Hs.
Qed.

(** ** The file source *)

(** The generator of a file source never yields: opening fails, or the
    lookup of the unbound name [csv] does. *)
Lemma file_source_never_yields (w : World) (filepath : string)
  (column_index : Z) (skip_header : bool) :
  yields (events (InputSource.read
                    (FileSource.new filepath column_index skip_header) w)) = 0%nat
  /\ exists e,
       finish (InputSource.read
                 (FileSource.new filepath column_index skip_header) w) = Some e
       /\ is_Exception e = true.
Proof.
  cbn. unfold FileSource.read_with, module_csv.
  destruct (open_text w (Path.__str__ filepath)) as [text|[n m]]; cbn; eauto.
Qed.

(** C8. On the two-column file of the example, read with column 1 and
    the header skipped, the call at precision 0 yields no item and
    returns Failure with the NameError of the unbound name [csv]: no
    token 10 or 20 is read and no sum 30 is returned. *)
Theorem csv_example_name_error :
  events (InputSource.read (FileSource.new "data.csv" 1 true) csv_world) = []
  /\ finish (InputSource.read (FileSource.new "data.csv" 1 true) csv_world)
     = Some (NameError "csv")
  /\ match returned (AdditionService.add_from_csv csv_world
                       (AdditionService.new 0 30) "data.csv" 1 true
                       initial_runtime) with
     | Some (r, _) =>
         status r = FAILURE /\ result r = None
         /\ error_message r = "NameError: name 'csv' is not defined"
         /\ processed_count r = 0%nat
     | None => False
     end.
Proof. vm_compute. repeat split. Qed.

(** With the name [csv] bound to a reader, the same call does what the
    example says. *)
Lemma csv_example_with_reader :
  events (InputSource.read
            (FileSource.new_with (Some plain_csv_reader) "data.csv" 1 true)
            csv_world)
  = [GYield "10"; GYield "20"]
  /\ match returned (AdditionService.add_from_source csv_world
                       (AdditionService.new 0 30)
                       (FileSource.new_with (Some plain_csv_reader) "data.csv" 1 true)
                       initial_runtime) with
     | Some (r, _) =>
         status r = SUCCESS /\ result r = Some (decimal.Finite false 30 0)
         /\ processed_count r = 2%nat /\ failed_count r = 0%nat
     | None => False
     end.
Proof. vm_compute. repeat split. Qed.

(** ** Non-finite spellings *)

(** C10. The spellings Infinity and +inf pass the validator, as an
    infinite decimal typed INTEGER, and the loop adds that value to the
    running total, which becomes infinite. *)
Theorem other_infinity_spellings_accepted :
  returned (NumberValidator.validate "Infinity" initial_runtime)
  = Some (Valid (decimal.Infinity false) INTEGER)
  /\ returned (NumberValidator.validate "+inf" initial_runtime)
     = Some (Valid (decimal.Infinity false) INTEGER)
  /\ returned (NumberValidator.validate "inf" initial_runtime)
     = Some (Invalid "Invalid number: inf")
  /\ match returned (AdditionService.for_loop still_world
                       (AdditionService.new 2 30) 0 0
                       [GYield "1"; GYield "Infinity"] None
                       AdditionService.initial_locals initial_runtime) with
     | Some l =>
         AdditionService.total l = decimal.Infinity false
         /\ AdditionService.processed l = 2%nat
         /\ AdditionService.failed l = 0%nat
     | None => False
     end.
Proof. vm_compute. repeat split. Qed.

(** Any finite running total becomes infinite once such a value is
    added. *)
Lemma add_infinity (s : bool) (c e : Z) (sg : bool) :
  decimal.add (decimal.Finite s c e) (decimal.Infinity sg)
  = Ok (decimal.Infinity sg).
Proof. done. Qed.

(** * Further properties *)

(** ** Trimming *)

Lemma lstrip_idem (l : list ascii) :
  PyStr.lstrip_chars (PyStr.lstrip_chars l) = PyStr.lstrip_chars l.
Proof.
  induction l as [|c l IH]; [done|]. cbn [PyStr.lstrip_chars].
  destruct (PyStr.is_space c) eqn:Hc; [done|].
  cbn [PyStr.lstrip_chars]. by rewrite Hc.
Qed.

Lemma lstrip_snoc (l : list ascii) (c : ascii) :
  PyStr.is_space c = false ->
  PyStr.lstrip_chars (l ++ [c]) = PyStr.lstrip_chars l ++ [c].
Proof.
  intros Hc. induction l as [|a l IH]; cbn [app PyStr.lstrip_chars].
  - by rewrite Hc.
  - by destruct (PyStr.is_space a).
Qed.

(** Trimming on the right keeps a leading character that is no space. *)
Lemma rstrip_cons (c : ascii) (l : list ascii) :
  PyStr.is_space c = false ->
  rev (PyStr.lstrip_chars (rev (c :: l)))
  = c :: rev (PyStr.lstrip_chars (rev l)).
Proof.
  intros Hc. cbn [rev]. rewrite (lstrip_snoc _ _ Hc), rev_app_distr. done.
Qed.

Lemma lstrip_rstrip (l : list ascii) :
  PyStr.lstrip_chars (rev (PyStr.lstrip_chars (rev (PyStr.lstrip_chars l))))
  = rev (PyStr.lstrip_chars (rev (PyStr.lstrip_chars l))).
Proof.
  induction l as [|c l IH]; [done|]. cbn [PyStr.lstrip_chars].
  destruct (PyStr.is_space c) eqn:Hc; [exact IH|].
  rewrite (rstrip_cons c l Hc). cbn [PyStr.lstrip_chars]. by rewrite Hc.
Qed.

Lemma strip_chars_idem (l : list ascii) :
  PyStr.strip_chars (PyStr.strip_chars l) = PyStr.strip_chars l.
Proof.
  unfold PyStr.strip_chars. rewrite lstrip_rstrip, rev_involutive.
  apply lstrip_rstrip.
Qed.

Lemma strip_idem (s : string) : PyStr.strip (PyStr.strip s) = PyStr.strip s.
Proof.
  unfold PyStr.strip. by rewrite chars_of_chars, strip_chars_idem.
Qed.

(** The trimmed text neither starts nor ends with a space. *)
Lemma lstrip_head (l : list ascii) (c : ascii) (r : list ascii) :
  PyStr.lstrip_chars l = c :: r -> PyStr.is_space c = false.
Proof.
  induction l as [|a l IH]; [done|]. cbn [PyStr.lstrip_chars].
  destruct (PyStr.is_space a) eqn:Ha; [exact IH|]. by intros [= <- _].
Qed.

(** ** The validation cache *)

Lemma validate_twice_lemma (value : string) (st : Runtime) :
  exists v st1,
    NumberValidator.validate value st = (Ok v, st1)
    /\ _cache st1 !! PyStr.strip value = Some v
    /\ clock_reads st1 = clock_reads st.
Proof.
  destruct (_cache st !! PyStr.strip value) as [r|] eqn:Hl.
  - exists r, st. by rewrite (validate_hit _ _ _ Hl).
  - exists (outcome value), (after_miss value st).
    rewrite (validate_miss _ _ Hl). split; [done|].
    split; [apply after_miss_lookup | done].
Qed.

(** X1. Padding does not matter to the validator: the input and its
    trimmed text have the same outcome, and validating the trimmed text
    right after the input is answered from the cache entry that the
    first call used, without any change of state. *)
Theorem validate_ignores_padding (value : string) (st : Runtime) :
  outcome (PyStr.strip value) = outcome value
  /\ exists v st1,
       NumberValidator.validate value st = (Ok v, st1)
       /\ NumberValidator.validate (PyStr.strip value) st1 = (Ok v, st1).
Proof.
  split; [unfold outcome; by rewrite strip_idem|].
  destruct (validate_twice_lemma value st) as (v & st1 & H1 & Hl & _).
  exists v, st1. split; [done|]. apply validate_hit. by rewrite strip_idem.
Qed.

Lemma size_insert_le (k : string) (v : validation) (m : gmap string validation) :
  (size (<[k := v]> m) <= S (size m))%nat.
Proof.
  rewrite map_size_insert. destruct (m !! k); unfold id; lia.
Qed.

Lemma after_miss_bounded (value : string) (st : Runtime) :
  cache_bounded (after_miss value st).
Proof.
  unfold cache_bounded, after_miss. cbn [_cache].
  destruct (Z.of_nat (size (_cache st)) >=? NumberValidator.MAX_CACHE_SIZE) eqn:Hfull.
  - pose proof (size_insert_le (PyStr.strip value) (outcome value) ∅) as H.
    rewrite map_size_empty in H. unfold NumberValidator.MAX_CACHE_SIZE. lia.
  - pose proof (size_insert_le (PyStr.strip value) (outcome value) (_cache st)) as H.
    unfold NumberValidator.MAX_CACHE_SIZE in *. lia.
Qed.

Lemma validate_keeps_bounded_lemma (value : string) (st : Runtime) :
  cache_bounded st ->
  cache_bounded (snd (NumberValidator.validate value st))
  /\ (Z.of_nat (size (_cache st)) < NumberValidator.MAX_CACHE_SIZE ->
      forall k r, _cache st !! k = Some r ->
        _cache (snd (NumberValidator.validate value st)) !! k = Some r).
Proof.
  intros Hb. destruct (_cache st !! PyStr.strip value) as [r0|] eqn:Hl.
  - rewrite (validate_hit _ _ _ Hl). done.
  - rewrite (validate_miss _ _ Hl). cbn [snd]. split; [apply after_miss_bounded|].
    intros Hroom k r Hk. unfold after_miss. cbn [_cache].
    assert ((Z.of_nat (size (_cache st)) >=? NumberValidator.MAX_CACHE_SIZE) = false)
      as -> by lia.
    rewrite lookup_insert_ne; [done|]. intros <-. congruence.
Qed.

(** X2. The cache never grows beyond [MAX_CACHE_SIZE] entries: a call of
    the validator on a cache within the bound leaves a cache within the
    bound; and as long as the cache is not full, the call forgets
    nothing. *)
Theorem validate_keeps_cache_bounded (value : string) (st : Runtime) :
  cache_bounded st ->
  cache_bounded (snd (NumberValidator.validate value st))
  /\ (Z.of_nat (size (_cache st)) < NumberValidator.MAX_CACHE_SIZE ->
      forall k r, _cache st !! k = Some r ->
        _cache (snd (NumberValidator.validate value st)) !! k = Some r).
Proof. apply validate_keeps_bounded_lemma. Qed.

Lemma validate_keeps_cache_bounded_witness :
  cache_bounded (snd (NumberValidator.validate "12.5" warm_runtime))
  /\ (Z.of_nat (size (_cache warm_runtime)) < NumberValidator.MAX_CACHE_SIZE ->
      forall k r, _cache warm_runtime !! k = Some r ->
        _cache (snd (NumberValidator.validate "12.5" warm_runtime)) !! k = Some r).
Proof.
  apply (validate_keeps_cache_bounded "12.5" warm_runtime).
  unfold cache_bounded. vm_compute. discriminate.
Defined.

(** X3. When the cache is full and the input is not in it, the call
    empties the cache before it stores the new outcome: afterwards the
    cache holds that one entry, and every other key is gone, however
    often it was used. *)
Theorem full_cache_is_cleared (value : string) (st : Runtime) :
  _cache st !! PyStr.strip value = None ->
  NumberValidator.MAX_CACHE_SIZE <= Z.of_nat (size (_cache st)) ->
  _cache (snd (NumberValidator.validate value st))
  = {[PyStr.strip value := outcome value]}
  /\ forall k, k <> PyStr.strip value ->
       _cache (snd (NumberValidator.validate value st)) !! k = None.
Proof.
  intros Hl Hfull. rewrite (validate_miss _ _ Hl). cbn [snd after_miss _cache].
  assert ((Z.of_nat (size (_cache st)) >=? NumberValidator.MAX_CACHE_SIZE) = true)
    as -> by lia.
  rewrite insert_empty. split; [done|].
  intros k Hk. by rewrite lookup_singleton_ne.
Qed.

(** The full cache of the example: its size, and the keys it lacks. *)
Lemma full_cache_keys (l : list nat) :
  (map (fun i : nat => (pretty i, NumberValidator.compute (pretty i))) l).*1
  = pretty <$> l.
Proof. induction l as [|i l IH]; cbn; [done|]. by rewrite <- IH. Qed.

Lemma full_cache_size :
  Z.of_nat (size full_cache) = NumberValidator.MAX_CACHE_SIZE.
Proof.
  unfold full_cache. rewrite map_size_list_to_map.
  - rewrite length_map, length_seq. unfold NumberValidator.MAX_CACHE_SIZE. lia.
  - rewrite full_cache_keys. apply NoDup_fmap_2; [apply _ | apply NoDup_seq].
Qed.

Lemma full_cache_miss (n : nat) :
  NumberValidator.MAX_CACHE_SIZE <= Z.of_nat n ->
  full_cache !! pretty n = None.
Proof.
  intros Hn. unfold full_cache. apply not_elem_of_list_to_map_1.
  rewrite full_cache_keys. intros Hin.
  apply list_elem_of_fmap in Hin as (i & Hi & Hin).
  apply (inj pretty) in Hi. subst i.
  apply elem_of_seq in Hin. unfold NumberValidator.MAX_CACHE_SIZE in *. lia.
Qed.

Lemma full_cache_is_cleared_witness :
  _cache (snd (NumberValidator.validate " 10000 " full_runtime))
  = {["10000" := Valid (decimal.Finite false 10000 0) INTEGER]}
  /\ _cache (snd (NumberValidator.validate " 10000 " full_runtime)) !! "7" = None.
Proof.
  destruct (full_cache_is_cleared " 10000 " full_runtime) as [H1 H2].
  - exact (full_cache_miss (Z.to_nat 10000) ltac:(vm_compute; discriminate)).
  - pose proof full_cache_size as Hs. cbn [full_runtime _cache]. lia.
  - split; [exact H1|]. apply H2. discriminate.
Defined.

(** ** What a call does to the process state *)

Section StateInvariant.
(** A property of the process state that the three effects keep. *)
Variable P : Runtime -> Prop.
Hypothesis P_tick : forall st, P st -> P (tick st).
Hypothesis P_logger : forall lvl msg st, P st -> P (snd (logger lvl msg st)).
Hypothesis P_validate :
  forall value st, P st -> P (snd (NumberValidator.validate value st)).

Lemma loop_body_keeps (w : World) (self : AdditionService.t) (start_time : Q)
  (idx : nat) (value : string) (l : AdditionService.locals) (st : Runtime) :
  P st -> P (snd (AdditionService.loop_body w self start_time idx value l st)).
Proof.
  intros H. rewrite loop_body_unfold. destruct (Qle_bool _ _); [|by apply P_tick].
  pose proof (P_validate value (tick st) (P_tick _ H)) as Hv.
  by destruct (NumberValidator.validate value (tick st)) as [[v|e] st'].
Qed.

Lemma for_loop_keeps (w : World) (self : AdditionService.t) (start_time : Q)
  (evs : list gen_event) (fin : option exn) (idx : nat)
  (l : AdditionService.locals) (st : Runtime) :
  P st -> P (snd (AdditionService.for_loop w self start_time idx evs fin l st)).
Proof.
  revert idx l st. induction evs as [|[value|lvl msg] evs IH]; intros idx l st H;
    cbn [AdditionService.for_loop].
  - by destruct fin.
  - unfold bind.
    pose proof (loop_body_keeps w self start_time idx value l st H) as Hb.
    destruct (AdditionService.loop_body w self start_time idx value l st)
      as [[l1|e] st1]; [by apply IH | done].
  - unfold bind. pose proof (P_logger lvl msg st H) as Hl.
    destruct (logger lvl msg st) as [[[]|e] st1] eqn:E; [by apply IH | done].
Qed.

Lemma try_block_keeps (w : World) (self : AdditionService.t)
  (source : InputSource.t) (start_time : Q) (st : Runtime) :
  P st -> P (snd (AdditionService.try_block w self source start_time st)).
Proof.
  intros H. unfold AdditionService.try_block, bind. cbv zeta.
  pose proof (for_loop_keeps w self start_time
                (events (InputSource.read source w))
                (finish (InputSource.read source w)) 0
                AdditionService.initial_locals st H) as Hl.
  destruct (AdditionService.for_loop _ _ _ _ _ _ _ _) as [[l|e] st1]; [|done].
  destruct (decimal.pow10_neg_exp _); [|done].
  destruct (decimal.quantize _ _); [|done].
  cbn [snd] in Hl.
  destruct (AdditionService.failed l =? 0)%nat;
    [|destruct (AdditionService.processed l =? 0)%nat];
    cbn; apply (P_logger _ _ (tick st1)), P_tick, Hl.
Qed.

Lemma handlers_keeps (w : World) (self : AdditionService.t)
  (source : InputSource.t) (start_time : Q) (e : exn) (st : Runtime) :
  P st -> P (snd (AdditionService.handlers w self source start_time e st)).
Proof.
  intros H. unfold AdditionService.handlers.
  destruct (is_TimeoutError e); [|destruct (is_Exception e); [|done]].
  - exact (P_tick _ (P_logger ERROR ("Timeout: " +:+ exn_str w e) st H)).
  - exact (P_tick _ (P_logger ERROR
                       ("Error: " +:+ exn_type_name e +:+ ": " +:+ exn_str w e) st H)).
Qed.

Lemma add_from_source_keeps (w : World) (self : AdditionService.t)
  (source : InputSource.t) (st : Runtime) :
  P st -> P (snd (AdditionService.add_from_source w self source st)).
Proof.
  intros H.
  destruct (InputSource.validate_source source w) as [[[|] msg]|e0] eqn:Hv.
  - rewrite (add_from_source_accepted _ _ _ _ msg) by done. unfold try_except.
    pose proof (try_block_keeps w self source (time_time w (clock_reads st))
                  (tick st) (P_tick _ H)) as Ht.
    destruct (AdditionService.try_block _ _ _ _ _) as [[a|e] st1]; [done|].
    by apply handlers_keeps.
  - unfold AdditionService.add_from_source, bind, now. rewrite Hv.
    exact (P_tick _ (P_logger ERROR ("Source validation failed: " +:+ msg)
                       (tick st) (P_tick _ H))).
  - rewrite (add_from_source_escapes _ _ _ _ e0) by done. by apply P_tick.
Qed.
End StateInvariant.

Lemma validate_log_grows (value : string) (st : Runtime) :
  log st `prefix_of` log (snd (NumberValidator.validate value st)).
Proof.
  destruct (_cache st !! PyStr.strip value) as [r0|] eqn:Hl.
  - by rewrite (validate_hit _ _ _ Hl).
  - rewrite (validate_miss _ _ Hl). cbn. by apply prefix_app_r.
Qed.

(** X4. Whatever the source, the world and the outcome of the call, a
    call keeps the cache coherent and within its bound when it was so
    before, and it only appends to the log. *)
Theorem call_keeps_cache_invariants (w : World) (self : AdditionService.t)
  (source : InputSource.t) (st : Runtime) :
  cache_coherent st -> cache_bounded st ->
  cache_coherent (snd (AdditionService.add_from_source w self source st))
  /\ cache_bounded (snd (AdditionService.add_from_source w self source st))
  /\ log st `prefix_of` log (snd (AdditionService.add_from_source w self source st)).
Proof.
  intros Hc Hb.
  apply (add_from_source_keeps
           (fun s => cache_coherent s /\ cache_bounded s /\ log st `prefix_of` log s)).
  - intros s H. exact H.
  - intros lvl msg s (H1 & H2 & H3). repeat split; [done..|].
    cbn. by apply prefix_app_r.
  - intros value s (H1 & H2 & H3).
    destruct (validate_outcome value s H1) as (s' & Hv & Hc' & _).
    pose proof (proj1 (validate_keeps_bounded_lemma value s H2)) as Hb'.
    pose proof (validate_log_grows value s) as Hlog.
    rewrite Hv in *. cbn [snd] in *. repeat split; [done..|].
    by etrans.
  - done.
Qed.

Lemma call_keeps_cache_invariants_witness :
  cache_coherent
    (snd (AdditionService.add_from_source still_world (AdditionService.new 2 30)
            (ListSource.new (PyList [SStr "1"; SStr "x"])) initial_runtime))
  /\ cache_bounded
       (snd (AdditionService.add_from_source still_world (AdditionService.new 2 30)
               (ListSource.new (PyList [SStr "1"; SStr "x"])) initial_runtime))
  /\ log initial_runtime `prefix_of`
       log (snd (AdditionService.add_from_source still_world (AdditionService.new 2 30)
                   (ListSource.new (PyList [SStr "1"; SStr "x"])) initial_runtime)).
Proof.
  apply (call_keeps_cache_invariants still_world (AdditionService.new 2 30)
           (ListSource.new (PyList [SStr "1"; SStr "x"])) initial_runtime).
  - intros k r H. vm_compute in H. discriminate.
  - unfold cache_bounded. vm_compute. discriminate.
Defined.

(** ** Rejected sources *)

(** X5. When the source is rejected, the call returns Failure with the
    message of the source and the service as it was; it reads no item,
    leaves the cache untouched, logs one error and reads the clock
    twice. *)
Theorem rejected_source_reads_nothing (w : World) (self : AdditionService.t)
  (src : InputSource.t) (st : Runtime) (msg : string) :
  InputSource.validate_source src w = Ok (false, msg) ->
  exists r st',
    AdditionService.add_from_source w self src st = (Ok (r, self), st')
    /\ status r = FAILURE /\ result r = None
    /\ error_message r = msg
    /\ processed_count r = 0%nat /\ failed_count r = 0%nat
    /\ number_types r = None
    /\ source r = InputSource.class_name src
    /\ _cache st' = _cache st
    /\ log st' = log st ++ [(ERROR, "Source validation failed: " +:+ msg)]
    /\ clock_reads st' = S (S (clock_reads st)).
Proof.
  intros H. unfold AdditionService.add_from_source, bind, now, logger.
  rewrite H. cbn [negb]. rewrite failure_run. cbn.
  do 2 eexists. split; [reflexivity|]. cbn. repeat split.
Qed.

Lemma rejected_source_reads_nothing_witness :
  exists r st',
    AdditionService.add_from_source csv_world (AdditionService.new 2 30)
      (FileSource.new "data.xls" 0 true) initial_runtime
    = (Ok (r, AdditionService.new 2 30), st')
    /\ status r = FAILURE /\ result r = None
    /\ error_message r = "File not found: data.xls"
    /\ processed_count r = 0%nat /\ failed_count r = 0%nat
    /\ number_types r = None
    /\ source r = "FileSource"
    /\ _cache st' = ∅
    /\ log st' = [(ERROR, "Source validation failed: File not found: data.xls")]
    /\ clock_reads st' = 2%nat.
Proof.
  apply (rejected_source_reads_nothing csv_world (AdditionService.new 2 30)
           (FileSource.new "data.xls" 0 true) initial_runtime
           "File not found: data.xls").
  reflexivity.
Defined.

(** X6. A list source is accepted exactly when it wraps a non-empty list
    or tuple. The call on an empty list returns Failure with the message
    List is empty, and on an object that is no list or tuple with the
    message Input must be a list or tuple, in every world and state. *)
Theorem list_source_acceptance (w : World) (self : AdditionService.t)
  (st : Runtime) :
  (forall numbers,
     fst (ListSource.validate_source numbers) = true <->
     exists l, l <> [] /\ (numbers = PyList l \/ numbers = PyTuple l))
  /\ (forall numbers, numbers = PyList [] \/ numbers = PyTuple [] ->
        (fun out => (status (fst out), result (fst out), error_message (fst out)))
          <$> returned (AdditionService.add_numbers w self numbers st)
        = Some (FAILURE, None, "List is empty"))
  /\ (fun out => (status (fst out), result (fst out), error_message (fst out)))
       <$> returned (AdditionService.add_numbers w self PyOther st)
     = Some (FAILURE, None, "Input must be a list or tuple").
Proof.
  split; [|split].
  - intros numbers. split.
    + destruct numbers as [[|x l]|[|x l]|]; cbn; try done;
        intros _; exists (x :: l); split; auto; done.
    + intros (l & Hl & [-> | ->]); destruct l; done.
  - by intros numbers [-> | ->].
  - done.
Qed.

(** ** The service counter *)

(** What the [try] block returns, in full. *)
Lemma try_block_result (w : World) (self self' : AdditionService.t)
  (source : InputSource.t) (start_time : Q) (st st' : Runtime)
  (r : OperationResult) :
  AdditionService.try_block w self source start_time st = (Ok (r, self'), st') ->
  exists l st1 target q,
    AdditionService.for_loop w self start_time 0
      (events (InputSource.read source w)) (finish (InputSource.read source w))
      AdditionService.initial_locals st = (Ok l, st1)
    /\ decimal.pow10_neg_exp (AdditionService.precision self) = Ok target
    /\ decimal.quantize (AdditionService.total l) target = Ok q
    /\ r = {| status := final_status l;
              result := final_result l q;
              error_message :=
                match AdditionService.errors l with
                | [] => EmptyString
                | _ => PyStr.join "; " (take 5 (AdditionService.errors l))
                end;
              processed_count := AdditionService.processed l;
              failed_count := AdditionService.failed l;
              execution_time := (time_time w (clock_reads st1) - start_time)%Q;
              number_types := Some (AdditionService.type_counts l);
              source := InputSource.class_name source |}
    /\ self' = {| AdditionService.precision := AdditionService.precision self;
                  AdditionService.timeout := AdditionService.timeout self;
                  AdditionService.operations_count :=
                    AdditionService.operations_count self + 1 |}
    /\ _cache st' = _cache st1
    /\ clock_reads st' = S (clock_reads st1).
Proof.
  unfold AdditionService.try_block, bind. cbv zeta.
  destruct (AdditionService.for_loop _ _ _ _ _ _ _ _) as [[l|e] st1] eqn:Hloop; [|done].
  destruct (decimal.pow10_neg_exp _) as [target|] eqn:Hpow; [|done].
  destruct (decimal.quantize _ _) as [q|] eqn:Hq; [|done].
  destruct (AdditionService.failed l =? 0)%nat eqn:E1;
    [|destruct (AdditionService.processed l =? 0)%nat eqn:E2];
    cbn; intros [= <- <- <-]; exists l, st1, target, q;
    unfold final_status, final_result; rewrite ?E1, ?E2;
    repeat split; assumption.
Qed.

(** A returned result that does not come from the end of the [try] block
    is a failure built by one of the two early exits, with the service
    unchanged. *)
Lemma add_from_source_paths (w : World) (self self' : AdditionService.t)
  (source : InputSource.t) (st st' : Runtime) (r : OperationResult) :
  AdditionService.add_from_source w self source st = (Ok (r, self'), st') ->
  ((exists msg, InputSource.validate_source source w = Ok (true, msg))
   /\ AdditionService.try_block w self source (time_time w (clock_reads st)) (tick st)
      = (Ok (r, self'), st'))
  \/ (self' = self /\ status r = FAILURE /\ result r = None
      /\ processed_count r = 0%nat /\ failed_count r = 0%nat
      /\ number_types r = None).
Proof.
  destruct (InputSource.validate_source source w) as [[[|] msg]|e0] eqn:Hv.
  - rewrite (add_from_source_accepted _ _ _ _ msg) by done. unfold try_except.
    destruct (AdditionService.try_block _ _ _ _ _) as [[[r0 self0]|e] st0] eqn:Ht.
    + intros [= <- <- <-]. left. eauto.
    + unfold AdditionService.handlers.
      destruct (is_TimeoutError e); [|destruct (is_Exception e); [|done]];
        unfold bind, logger; rewrite failure_run; intros [= <- <- <-];
        right; repeat split.
  - unfold AdditionService.add_from_source, bind, now, logger.
    rewrite Hv. cbn [negb]. rewrite failure_run.
    intros [= <- <- <-]. right. repeat split.
  - by rewrite (add_from_source_escapes _ _ _ _ e0).
Qed.

(** X7. The counter of the service counts the calls that ran to the end
    of the [try] block: such a call returns the service with the counter
    raised by one, every other call returns the service as it was; the
    precision and the timeout never change; and the histogram of types is
    present in the result exactly in the first case. *)
Theorem operations_count_counts_completed_calls (w : World)
  (self self' : AdditionService.t) (source : InputSource.t) (st st' : Runtime)
  (r : OperationResult) :
  AdditionService.add_from_source w self source st = (Ok (r, self'), st') ->
  AdditionService.precision self' = AdditionService.precision self
  /\ AdditionService.timeout self' = AdditionService.timeout self
  /\ AdditionService.operations_count self'
     = AdditionService.operations_count self
       + match number_types r with Some _ => 1 | None => 0 end
  /\ (is_Some (number_types r) <-> completes w self source st r).
Proof.
  intros Hrun.
  destruct (add_from_source_paths _ _ _ _ _ _ _ Hrun)
    as [[Hv Ht]|(-> & Hs & Hr & Hp & Hf & Hn)].
  - pose proof Ht as Ht'.
    apply try_block_result in Ht' as (l & st1 & target & q & _ & _ & _ & -> & -> & _).
    cbn. split; [done|]. split; [done|]. split; [done|]. split.
    + intros _. split; [done|]. eauto.
    + intros _. by eexists.
  - rewrite Hn. split; [done|]. split; [done|]. split; [lia|]. split.
    + by intros [? ?].
    + intros (_ & self0 & st0 & Ht).
      apply try_block_result in Ht as (l & st1 & target & q & _ & _ & _ & -> & _).
      done.
Qed.

Lemma operations_count_counts_completed_calls_witness :
  exists r self' st',
    AdditionService.add_from_source still_world (AdditionService.new 2 30)
      (ListSource.new (PyList [SStr "1"; SStr "x"])) initial_runtime
    = (Ok (r, self'), st')
    /\ AdditionService.precision self' = 2
    /\ AdditionService.operations_count self' = 1.
Proof.
  assert (H : exists r self' st',
             AdditionService.add_from_source still_world (AdditionService.new 2 30)
               (ListSource.new (PyList [SStr "1"; SStr "x"])) initial_runtime
             = (Ok (r, self'), st') /\ is_Some (number_types r)).
  { do 3 eexists. split; [vm_compute; reflexivity|]. eexists. reflexivity. }
  destruct H as (r & self' & st' & H & Hn). exists r, self', st'.
  destruct (operations_count_counts_completed_calls _ _ _ _ _ _ _ H)
    as (Hp & _ & Hc & _).
  split; [exact H|]. split; [exact Hp|].
  rewrite Hc. destruct Hn as [m ->]. reflexivity.
Defined.

(** ** What the loop computes from the stream *)

Lemma NumberType_value_inj (t1 t2 : NumberType) :
  NumberType_value t1 = NumberType_value t2 -> t1 = t2.
Proof. by destruct t1, t2. Qed.

Lemma initial_hist_ok : hist_ok (AdditionService.type_counts AdditionService.initial_locals).
Proof. intros []; by eexists. Qed.

Lemma initial_type_count (t : NumberType) :
  type_count (AdditionService.type_counts AdditionService.initial_locals) t = 0%nat.
Proof. by destruct t. Qed.

Lemma alter_hist_ok (m : gmap string nat) (ty : NumberType) :
  hist_ok m -> hist_ok (alter S (NumberType_value ty) m).
Proof.
  intros H t. rewrite lookup_alter. case_decide as E.
  - apply NumberType_value_inj in E as ->. destruct (H t) as [n ->]. by eexists.
  - apply H.
Qed.

Lemma alter_type_count (m : gmap string nat) (ty t : NumberType) :
  hist_ok m ->
  type_count (alter S (NumberType_value ty) m) t
  = (type_count m t
     + if String.eqb (NumberType_value ty) (NumberType_value t) then 1 else 0)%nat.
Proof.
  intros H. unfold type_count. rewrite lookup_alter. case_decide as E.
  - apply NumberType_value_inj in E as ->.
    rewrite String.eqb_refl. destruct (H t) as [n ->]. cbn. lia.
  - apply String.eqb_neq in E. rewrite E. lia.
Qed.

Lemma count_type_cons (t : NumberType) (s : string) (lits : list string) :
  count_type t (s :: lits)
  = ((match outcome s with
      | Valid _ t' =>
          if String.eqb (NumberType_value t') (NumberType_value t) then 1 else 0
      | Invalid _ => 0
      end) + count_type t lits)%nat.
Proof.
  unfold count_type. cbn [List.filter].
  destruct (outcome s) as [d t'|msg]; [|done].
  by destruct (String.eqb _ _).
Qed.

Lemma count_type_total (lits : list string) :
  (count_type INTEGER lits + count_type FLOAT lits + count_type DECIMAL lits
   = length (valid_values lits))%nat.
Proof.
  induction lits as [|s lits IH]; [done|].
  rewrite !count_type_cons, valid_values_cons.
  destruct (outcome s) as [d []|msg]; cbn; lia.
Qed.

Lemma failure_messages_length (idx : nat) (lits : list string) :
  (length (failure_messages idx lits) + length (valid_values lits)
   = length lits)%nat.
Proof.
  revert idx. induction lits as [|s lits IH]; intros idx; [done|].
  cbn [failure_messages]. rewrite valid_values_cons.
  destruct (outcome s); cbn [length]; specialize (IH (S idx)); lia.
Qed.

(** On a coherent cache, a loop that ends normally has processed the
    valid literals of the stream and recorded the others, in order. *)
Lemma for_loop_coherent (w : World) (self : AdditionService.t) (start_time : Q)
  (evs : list gen_event) (fin : option exn) :
  forall (idx : nat) (l l' : AdditionService.locals) (st st' : Runtime),
  cache_coherent st ->
  hist_ok (AdditionService.type_counts l) ->
  AdditionService.for_loop w self start_time idx evs fin l st = (Ok l', st') ->
  AdditionService.processed l'
  = (AdditionService.processed l + length (valid_values (yielded evs)))%nat
  /\ AdditionService.failed l'
     = (AdditionService.failed l + length (failure_messages idx (yielded evs)))%nat
  /\ AdditionService.errors l'
     = AdditionService.errors l ++ failure_messages idx (yielded evs)
  /\ forall t, type_count (AdditionService.type_counts l') t
               = (type_count (AdditionService.type_counts l) t
                  + count_type t (yielded evs))%nat.
Proof.
  induction evs as [|[value|lvl msg] evs IH]; intros idx l l' st st' Hc Hh;
    cbn [AdditionService.for_loop yielded].
  - destruct fin; [done|]. intros [= <- <-]. cbn.
    rewrite app_nil_r. repeat split; try lia.
  - unfold bind. rewrite loop_body_unfold.
    destruct (Qle_bool _ _); [|done].
    destruct (validate_outcome value (tick st) (tick_coherent _ Hc))
      as (st1 & -> & Hc1 & _).
    rewrite valid_values_cons. cbn [failure_messages].
    destruct (outcome value) as [d ty|m] eqn:Ho; cbn [step].
    + destruct (decimal.add _ _) as [t'|]; [|done].
      intros Hloop.
      apply (IH _ _ _ _ _ Hc1) in Hloop as (Hp & Hf & He & Ht);
        [|by apply alter_hist_ok].
      cbn [after_valid AdditionService.processed AdditionService.failed
           AdditionService.errors AdditionService.type_counts] in *.
      repeat split; [cbn [length]; lia | lia | done |].
      intros t. rewrite Ht, alter_type_count by done.
      rewrite count_type_cons, Ho. lia.
    + intros Hloop.
      apply (IH _ _ _ _ _ Hc1) in Hloop as (Hp & Hf & He & Ht); [|done].
      cbn [after_invalid AdditionService.processed AdditionService.failed
           AdditionService.errors AdditionService.type_counts] in *.
      repeat split; [lia | cbn [length]; lia | by rewrite He, <- app_assoc |].
      intros t. rewrite Ht, count_type_cons, Ho. lia.
  - unfold bind, logger. apply IH; done.
Qed.

(** The same for a call that runs to the end of the [try] block. *)
Lemma completes_coherent (w : World) (self : AdditionService.t)
  (src : InputSource.t) (st : Runtime) (r : OperationResult) :
  cache_coherent st ->
  completes w self src st r ->
  let tokens := yielded (events (InputSource.read src w)) in
  processed_count r = length (valid_values tokens)
  /\ failed_count r = length (failure_messages 0 tokens)
  /\ error_message r = PyStr.join "; " (take 5 (failure_messages 0 tokens))
  /\ exists m, number_types r = Some m
               /\ forall t, type_count m t = count_type t tokens.
Proof.
  intros Hc (_ & self' & st' & Ht) tokens.
  apply try_block_result in Ht as (l & st1 & target & q & Hloop & _ & _ & -> & _).
  apply for_loop_coherent in Hloop as (Hp & Hf & He & Hty);
    [|done|apply initial_hist_ok].
  cbn in Hp, Hf, He. fold tokens in Hp, Hf, He, Hty. cbn.
  split; [done|]. split; [done|]. split.
  - rewrite He. by destruct (failure_messages 0 tokens).
  - eexists. split; [done|]. intros t. by rewrite Hty, initial_type_count.
Qed.

(** ** Counters, histogram and error summary of a completed call *)

(** X8. After a call that ran to the end of the [try] block from a
    coherent cache, the histogram of types gives, for each type, the
    number of valid literals of the stream that have this type; its three
    counters add up to the processed count. *)
Theorem histogram_counts_valid_tokens (w : World) (self : AdditionService.t)
  (src : InputSource.t) (st : Runtime) (r : OperationResult) :
  cache_coherent st ->
  completes w self src st r ->
  exists m,
    number_types r = Some m
    /\ (forall t, type_count m t
                  = count_type t (yielded (events (InputSource.read src w))))
    /\ (type_count m INTEGER + type_count m FLOAT + type_count m DECIMAL
        = processed_count r)%nat.
Proof.
  intros Hc Hdone.
  destruct (completes_coherent w self src st r Hc Hdone) as (Hp & _ & _ & m & Hm & Ht).
  exists m. split; [done|]. split; [done|].
  rewrite !Ht, Hp. apply count_type_total.
Qed.

Lemma histogram_counts_valid_tokens_witness :
  exists r m,
    completes still_world (AdditionService.new 2 30)
      (ListSource.new (PyList [SStr "1"; SStr "x"; SStr "2.5"; SStr "3e0"; SInt 7]))
      initial_runtime r
    /\ number_types r = Some m
    /\ type_count m INTEGER = 2%nat
    /\ type_count m FLOAT = 1%nat
    /\ type_count m DECIMAL = 1%nat
    /\ processed_count r = 4%nat.
Proof.
  assert (H : exists r,
             completes still_world (AdditionService.new 2 30)
               (ListSource.new (PyList [SStr "1"; SStr "x"; SStr "2.5"; SStr "3e0"; SInt 7]))
               initial_runtime r).
  { eexists. split; [eexists; reflexivity|]. do 2 eexists. vm_compute. reflexivity. }
  destruct H as [r Hr].
  assert (Hc : cache_coherent initial_runtime)
    by (intros k x Hk; vm_compute in Hk; discriminate).
  destruct (histogram_counts_valid_tokens _ _ _ _ r Hc Hr)
    as (m & Hm & Ht & Hsum).
  exists r, m. split; [exact Hr|]. split; [exact Hm|].
  split; [rewrite (Ht INTEGER); vm_compute; reflexivity|].
  split; [rewrite (Ht FLOAT); vm_compute; reflexivity|].
  split; [rewrite (Ht DECIMAL); vm_compute; reflexivity|].
  rewrite <- Hsum, (Ht INTEGER), (Ht FLOAT), (Ht DECIMAL). vm_compute. reflexivity.
Defined.

(** X9. After a call that ran to the end of the [try] block from a
    coherent cache, the failed count is the number of invalid literals
    of the stream, and the error message joins with a semicolon and a
    space the messages of the first five of them, each made of the
    position of the literal in the stream, counted from 0 over valid and
    invalid literals alike, and of the message of the validator. *)
Theorem error_message_lists_first_five (w : World) (self : AdditionService.t)
  (src : InputSource.t) (st : Runtime) (r : OperationResult) :
  cache_coherent st ->
  completes w self src st r ->
  failed_count r
  = length (failure_messages 0 (yielded (events (InputSource.read src w))))
  /\ processed_count r
     = length (valid_values (yielded (events (InputSource.read src w))))
  /\ error_message r
     = PyStr.join "; "
         (take 5 (failure_messages 0 (yielded (events (InputSource.read src w))))).
Proof.
  intros Hc Hdone.
  destruct (completes_coherent w self src st r Hc Hdone) as (Hp & Hf & He & _).
  done.
Qed.

Lemma error_message_lists_first_five_witness :
  exists r,
    completes still_world (AdditionService.new 2 30)
      (ListSource.new
         (PyList [SStr "a"; SStr "1"; SStr "b"; SStr " c "; SStr "d"; SStr "e"; SStr "f"]))
      initial_runtime r
    /\ failed_count r = 6%nat
    /\ processed_count r = 1%nat
    /\ error_message r
       = "Index 0: Invalid number: a; Index 2: Invalid number: b; Index 3: Invalid number: c; Index 4: Invalid number: d; Index 5: Invalid number: e".
Proof.
  assert (H : exists r,
             completes still_world (AdditionService.new 2 30)
               (ListSource.new
                  (PyList [SStr "a"; SStr "1"; SStr "b"; SStr " c "; SStr "d";
                           SStr "e"; SStr "f"]))
               initial_runtime r).
  { eexists. split; [eexists; reflexivity|]. do 2 eexists. vm_compute. reflexivity. }
  destruct H as [r Hr]. exists r. split; [exact Hr|].
  assert (Hc : cache_coherent initial_runtime)
    by (intros k x Hk; vm_compute in Hk; discriminate).
  exact (error_message_lists_first_five _ _ _ _ r Hc Hr).
Defined.

Lemma append_nonempty (s1 s2 : string) : s1 <> EmptyString -> s1 +:+ s2 <> EmptyString.
Proof. destruct s1; [done|]. intros _ H. discriminate H. Qed.

Lemma join_nonempty (sep s : string) (l : list string) :
  s <> EmptyString -> PyStr.join sep (s :: l) <> EmptyString.
Proof.
  intros Hs. cbn [PyStr.join]. destruct l; [done|]. by apply append_nonempty.
Qed.

Lemma step_errors (l l' : AdditionService.locals) (idx : nat) (v : validation) :
  step l idx v = Ok l' ->
  length (AdditionService.errors l) = AdditionService.failed l ->
  Forall (fun m => m <> EmptyString) (AdditionService.errors l) ->
  length (AdditionService.errors l') = AdditionService.failed l'
  /\ Forall (fun m => m <> EmptyString) (AdditionService.errors l').
Proof.
  destruct v as [num ty|msg]; cbn [step].
  - destruct (decimal.add _ _); [|done]. by intros [= <-].
  - intros [= <-] Hlen Hall. cbn. rewrite length_app. cbn. split; [lia|].
    apply Forall_app. split; [done|]. constructor; [|done].
    by apply append_nonempty.
Qed.

Lemma for_loop_errors (w : World) (self : AdditionService.t) (start_time : Q)
  (evs : list gen_event) (fin : option exn) :
  forall (idx : nat) (l l' : AdditionService.locals) (st st' : Runtime),
  AdditionService.for_loop w self start_time idx evs fin l st = (Ok l', st') ->
  length (AdditionService.errors l) = AdditionService.failed l ->
  Forall (fun m => m <> EmptyString) (AdditionService.errors l) ->
  length (AdditionService.errors l') = AdditionService.failed l'
  /\ Forall (fun m => m <> EmptyString) (AdditionService.errors l').
Proof.
  induction evs as [|[value|lvl msg] evs IH]; intros idx l l' st st';
    cbn [AdditionService.for_loop].
  - destruct fin; [done|]. by intros [= <- <-].
  - unfold bind. rewrite loop_body_unfold. destruct (Qle_bool _ _); [|done].
    destruct (validate_total value (tick st)) as (v & st1 & -> & _).
    destruct (step l idx v) as [l1|e] eqn:Hstep; [|done].
    intros Hloop Hlen Hall.
    destruct (step_errors _ _ _ _ Hstep Hlen Hall) as [Hlen1 Hall1].
    by apply (IH _ _ _ _ _ Hloop).
  - unfold bind, logger. apply IH.
Qed.

(** X10. Whatever the state of the cache, a call that ran to the end of
    the [try] block has an empty error message exactly when no item
    failed. *)
Theorem error_message_empty_iff_no_failure (w : World) (self : AdditionService.t)
  (src : InputSource.t) (st : Runtime) (r : OperationResult) :
  completes w self src st r ->
  (error_message r = EmptyString <-> failed_count r = 0%nat).
Proof.
  intros (_ & self' & st' & Ht).
  apply try_block_result in Ht as (l & st1 & target & q & Hloop & _ & _ & -> & _).
  apply for_loop_errors in Hloop as [Hlen Hall]; [|done|done].
  cbn. rewrite <- Hlen.
  destruct (AdditionService.errors l) as [|e es]; [done|].
  apply Forall_cons in Hall as [He _]. split; [|done].
  intros H. exfalso. revert H. cbn [take]. by apply join_nonempty.
Qed.

Lemma error_message_empty_iff_no_failure_witness :
  exists r,
    completes still_world (AdditionService.new 2 30)
      (ListSource.new (PyList [SStr "1"; SStr "x"])) initial_runtime r
    /\ (error_message r = EmptyString <-> failed_count r = 0%nat).
Proof.
  assert (H : exists r,
             completes still_world (AdditionService.new 2 30)
               (ListSource.new (PyList [SStr "1"; SStr "x"])) initial_runtime r).
  { eexists. split; [eexists; reflexivity|]. do 2 eexists. vm_compute. reflexivity. }
  destruct H as [r Hr]. exists r. split; [exact Hr|].
  exact (error_message_empty_iff_no_failure _ _ _ _ r Hr).
Defined.

(** ** The shape of the returned value *)

Lemma fix_kept (s : bool) (c e : Z) :
  (decimal.ndigits c >? decimal.prec) = false ->
  (decimal.adjusted c e >? decimal.Emax) = false ->
  decimal.Etiny <= e <= decimal.Emax ->
  decimal._fix (decimal.Finite s c e) = Ok (decimal.Finite s c e).
Proof.
  intros Hnd Hadj He. unfold decimal._fix, decimal.adjusted in *.
  destruct (c =? 0) eqn:H0.
  - apply Z.eqb_eq in H0 as ->. do 2 f_equal. lia.
  - cbv zeta.
    assert ((decimal.ndigits c + e - decimal.prec >? decimal.Etop) = false) as ->.
    { unfold decimal.Etop in *. lia. }
    assert ((e <? Z.max (decimal.ndigits c + e - decimal.prec) decimal.Etiny) = false)
      as -> by lia.
    done.
Qed.

(** [quantize] returns a quiet NaN or a finite number with the target
    exponent and at most [prec] digits, never an infinity. *)
Lemma quantize_shape (d q : decimal.Decimal) (target : Z) :
  decimal.quantize d target = Ok q ->
  match q with
  | decimal.Finite _ c e => e = target /\ c < 10 ^ decimal.prec
  | decimal.Infinity _ => False
  | decimal.NaN _ sg _ => sg = false
  end.
Proof.
  assert (Hlt : forall c, (decimal.ndigits c >? decimal.prec) = false ->
            c < 10 ^ decimal.prec).
  { intros c Hnd. destruct (Z.le_gt_cases c 0) as [|Hpos].
    - pose proof (pow10_pos decimal.prec ltac:(done)). lia.
    - destruct (ndigits_spec c Hpos) as (_ & _ & Hhi).
      assert (10 ^ decimal.ndigits c <= 10 ^ decimal.prec)
        by (apply Z.pow_le_mono_r; lia).
      lia. }
  destruct d as [s c e|s|s [] p]; cbn [decimal.quantize]; try done.
  - destruct ((decimal.Etiny <=? target) && (target <=? decimal.Emax)) eqn:Hb;
      cbn [negb]; [|done].
    assert (Hbounds : decimal.Etiny <= target <= decimal.Emax) by lia.
    destruct (c =? 0) eqn:H0.
    { rewrite fix_kept; [by intros [= <-] | done | | done].
      unfold decimal.adjusted. change (decimal.ndigits 0) with 1. lia. }
    destruct (decimal.adjusted c e >? decimal.Emax); [done|].
    destruct (decimal.adjusted c e - target + 1 >? decimal.prec); [done|].
    unfold decimal._rescale. rewrite H0.
    destruct (e >=? target);
      (destruct (decimal.adjusted _ target >? decimal.Emax) eqn:Hadj; [done|];
       destruct (decimal.ndigits _ >? decimal.prec) eqn:Hnd; [done|];
       rewrite fix_kept by done; intros [= <-]; split; [done | by apply Hlt]).
  - by intros [= <-].
Qed.

(** X11. A returned value is never infinite and never a signaling NaN;
    when it is a number, it has at most 28 digits and its exponent is the
    one of the power of ten that the precision gives, that is minus the
    precision for a precision between 0 and 1000026. *)
Theorem returned_value_shape (w : World) (self self' : AdditionService.t)
  (src : InputSource.t) (st st' : Runtime) (r : OperationResult)
  (d : decimal.Decimal) :
  AdditionService.add_from_source w self src st = (Ok (r, self'), st') ->
  result r = Some d ->
  exists target,
    decimal.pow10_neg_exp (AdditionService.precision self) = Ok target
    /\ (0 <= AdditionService.precision self <= - decimal.Etiny ->
        target = - AdditionService.precision self)
    /\ match d with
       | decimal.Finite _ c e => e = target /\ c < 10 ^ decimal.prec
       | decimal.Infinity _ => False
       | decimal.NaN _ sg _ => sg = false
       end.
Proof.
  intros Hrun Hd.
  destruct (add_from_source_paths _ _ _ _ _ _ _ Hrun) as [[_ Ht]|(_ & _ & Hr & _)];
    [|congruence].
  apply try_block_result in Ht as (l & st1 & target & q & _ & Hpow & Hq & -> & _).
  cbn in Hd. exists target. split; [done|]. split.
  - intros Hp. unfold decimal.pow10_neg_exp in Hpow.
    replace (0 <=? AdditionService.precision self) with true in Hpow by lia.
    injection Hpow as <-. lia.
  - assert (d = q) as ->.
    { unfold final_result in Hd.
      destruct (AdditionService.failed l =? 0)%nat;
        [|destruct (AdditionService.processed l =? 0)%nat]; congruence. }
    by apply (quantize_shape _ _ _ Hq).
Qed.

Lemma returned_value_shape_witness :
  exists r self' st' d target,
    AdditionService.add_from_source still_world (AdditionService.new 2 30)
      (ListSource.new (PyList [SStr "+nan"; SStr "1"])) initial_runtime
    = (Ok (r, self'), st')
    /\ result r = Some d
    /\ decimal.pow10_neg_exp 2 = Ok target
    /\ match d with
       | decimal.Finite _ c e => e = target /\ c < 10 ^ decimal.prec
       | decimal.Infinity _ => False
       | decimal.NaN _ sg _ => sg = false
       end.
Proof.
  assert (H : exists r self' st' d,
             AdditionService.add_from_source still_world (AdditionService.new 2 30)
               (ListSource.new (PyList [SStr "+nan"; SStr "1"])) initial_runtime
             = (Ok (r, self'), st') /\ result r = Some d).
  { do 4 eexists. split; vm_compute; reflexivity. }
  destruct H as (r & self' & st' & d & H & Hd).
  destruct (returned_value_shape _ _ _ _ _ _ r d H Hd) as (target & Hpow & _ & Hshape).
  exists r, self', st', d, target. repeat split; assumption.
Defined.

(** ** The cache changes no result *)

Lemma same_view_tick (st1 st2 : Runtime) :
  same_view st1 st2 -> same_view (tick st1) (tick st2).
Proof. intros (H1 & H2 & H3). repeat split; try done. cbn. by rewrite H3. Qed.

Lemma loop_body_same (w : World) (self : AdditionService.t) (start_time : Q)
  (idx : nat) (value : string) (l : AdditionService.locals) (st1 st2 : Runtime) :
  same_view st1 st2 ->
  fst (AdditionService.loop_body w self start_time idx value l st1)
  = fst (AdditionService.loop_body w self start_time idx value l st2)
  /\ same_view (snd (AdditionService.loop_body w self start_time idx value l st1))
               (snd (AdditionService.loop_body w self start_time idx value l st2)).
Proof.
  intros Hv. pose proof (same_view_tick _ _ Hv) as (Hc1 & Hc2 & Hclk).
  destruct Hv as (_ & _ & Hclk0).
  rewrite !loop_body_unfold, Hclk0. destruct (Qle_bool _ _).
  - destruct (validate_outcome value (tick st1) Hc1) as (s1 & -> & Hs1 & Hk1).
    destruct (validate_outcome value (tick st2) Hc2) as (s2 & -> & Hs2 & Hk2).
    cbn [fst snd]. split; [done|]. repeat split; try done. congruence.
  - cbn [fst snd]. split; [done|]. by repeat split.
Qed.

Lemma for_loop_same (w : World) (self : AdditionService.t) (start_time : Q)
  (evs : list gen_event) (fin : option exn) :
  forall (idx : nat) (l : AdditionService.locals) (st1 st2 : Runtime),
  same_view st1 st2 ->
  fst (AdditionService.for_loop w self start_time idx evs fin l st1)
  = fst (AdditionService.for_loop w self start_time idx evs fin l st2)
  /\ same_view (snd (AdditionService.for_loop w self start_time idx evs fin l st1))
               (snd (AdditionService.for_loop w self start_time idx evs fin l st2)).
Proof.
  induction evs as [|[value|lvl msg] evs IH]; intros idx l st1 st2 Hv;
    cbn [AdditionService.for_loop].
  - by destruct fin.
  - unfold bind.
    destruct (loop_body_same w self start_time idx value l st1 st2 Hv) as [Hf Hs].
    destruct (AdditionService.loop_body w self start_time idx value l st1)
      as [[l1|e1] s1];
      destruct (AdditionService.loop_body w self start_time idx value l st2)
        as [[l2|e2] s2]; cbn [fst snd] in *; try discriminate;
      [|injection Hf as <-; by split].
    injection Hf as <-. by apply IH.
  - unfold bind, logger. apply IH. destruct Hv as (H1 & H2 & H3). by repeat split.
Qed.

Lemma try_block_same (w : World) (self : AdditionService.t)
  (src : InputSource.t) (start_time : Q) (st1 st2 : Runtime) :
  same_view st1 st2 ->
  fst (AdditionService.try_block w self src start_time st1)
  = fst (AdditionService.try_block w self src start_time st2)
  /\ clock_reads (snd (AdditionService.try_block w self src start_time st1))
     = clock_reads (snd (AdditionService.try_block w self src start_time st2)).
Proof.
  intros Hv. unfold AdditionService.try_block, bind. cbv zeta.
  destruct (for_loop_same w self start_time (events (InputSource.read src w))
              (finish (InputSource.read src w)) 0 AdditionService.initial_locals
              st1 st2 Hv) as [Hf (_ & _ & Hclk)].
  destruct (AdditionService.for_loop _ _ _ _ _ _ _ st1) as [[l1|e1] s1];
    destruct (AdditionService.for_loop _ _ _ _ _ _ _ st2) as [[l2|e2] s2];
    cbn [fst snd] in *; try discriminate;
    [|injection Hf as <-; split; [reflexivity | exact Hclk]].
  injection Hf as <-.
  destruct (decimal.pow10_neg_exp _); [|split; [reflexivity | exact Hclk]].
  destruct (decimal.quantize _ _); [|split; [reflexivity | exact Hclk]].
  destruct (AdditionService.failed l1 =? 0)%nat;
    [|destruct (AdditionService.processed l1 =? 0)%nat];
    cbn; rewrite Hclk; split; reflexivity.
Qed.

(** X12. The cache changes no result: from two states whose caches are
    coherent and whose clocks stand at the same reading, a call returns
    the same result and the same service, whatever the two caches and
    logs hold. *)
Theorem cache_changes_no_result (w : World) (self : AdditionService.t)
  (src : InputSource.t) (st1 st2 : Runtime) :
  cache_coherent st1 -> cache_coherent st2 ->
  clock_reads st1 = clock_reads st2 ->
  fst (AdditionService.add_from_source w self src st1)
  = fst (AdditionService.add_from_source w self src st2).
Proof.
  intros H1 H2 Hclk.
  destruct (InputSource.validate_source src w) as [[[|] msg]|e0] eqn:Hacc.
  - rewrite !(add_from_source_accepted _ _ _ _ msg) by done.
    unfold try_except. rewrite Hclk.
    destruct (try_block_same w self src (time_time w (clock_reads st2))
                (tick st1) (tick st2)) as [Hf Hk].
    { apply same_view_tick. by repeat split. }
    destruct (AdditionService.try_block _ _ _ _ (tick st1)) as [[a1|e1] s1];
      destruct (AdditionService.try_block _ _ _ _ (tick st2)) as [[a2|e2] s2];
      cbn [fst snd] in *; try discriminate; [done|].
    injection Hf as <-. unfold AdditionService.handlers.
    destruct (is_TimeoutError e1); [|destruct (is_Exception e1); [|done]];
      unfold bind, logger; rewrite !failure_run; cbn; by rewrite Hk.
  - unfold AdditionService.add_from_source, bind, now, logger.
    rewrite Hacc. cbn. by rewrite Hclk.
  - by rewrite !(add_from_source_escapes _ _ _ _ e0).
Qed.

Lemma cache_changes_no_result_witness :
  fst (AdditionService.add_from_source still_world (AdditionService.new 2 30)
         (ListSource.new (PyList [SStr "7"; SStr "abc"])) warm_runtime)
  = fst (AdditionService.add_from_source still_world (AdditionService.new 2 30)
           (ListSource.new (PyList [SStr "7"; SStr "abc"])) initial_runtime).
Proof.
  apply (cache_changes_no_result still_world (AdditionService.new 2 30)
           (ListSource.new (PyList [SStr "7"; SStr "abc"]))
           warm_runtime initial_runtime).
  - intros k r Hk. cbn in Hk. apply lookup_singleton_Some in Hk as [<- <-].
    reflexivity.
  - intros k r Hk. vm_compute in Hk. discriminate.
  - reflexivity.
Defined.

(** ** Streams without items *)

Lemma for_loop_no_item (w : World) (self : AdditionService.t) (start_time : Q)
  (evs : list gen_event) (fin : option exn) :
  yields evs = 0%nat ->
  forall (idx : nat) (l : AdditionService.locals) (st : Runtime),
  exists st',
    AdditionService.for_loop w self start_time idx evs fin l st
    = (match fin with None => Ok l | Some e => Err e end, st')
    /\ _cache st' = _cache st /\ clock_reads st' = clock_reads st.
Proof.
  induction evs as [|[value|lvl msg] evs IH]; intros Hy idx l st;
    cbn [AdditionService.for_loop yields] in *.
  - exists st. by destruct fin.
  - done.
  - unfold bind, logger. destruct (IH Hy idx l
      {| _cache := _cache st; log := log st ++ [(lvl, msg)];
         clock_reads := clock_reads st |}) as (st' & -> & Hc & Hk).
    by exists st'.
Qed.

(** X13. The timeout is checked when an item arrives and at no other
    time: on an accepted source whose generator ends normally without
    yielding, the call succeeds whatever the clock says, with no item
    processed, a zero sum at the configured precision and an empty error
    message. *)
Theorem no_item_no_timeout (w : World) (self : AdditionService.t)
  (src : InputSource.t) (st : Runtime) (msg : string) :
  InputSource.validate_source src w = Ok (true, msg) ->
  yields (events (InputSource.read src w)) = 0%nat ->
  finish (InputSource.read src w) = None ->
  0 <= AdditionService.precision self <= - decimal.Etiny ->
  exists r self' st',
    AdditionService.add_from_source w self src st = (Ok (r, self'), st')
    /\ status r = SUCCESS
    /\ result r = Some (decimal.Finite false 0 (- AdditionService.precision self))
    /\ processed_count r = 0%nat /\ failed_count r = 0%nat
    /\ error_message r = EmptyString.
Proof.
  intros Hacc Hy Hfin Hp.
  rewrite (add_from_source_accepted _ _ _ _ msg) by done. unfold try_except.
  destruct (for_loop_no_item w self (time_time w (clock_reads st))
              (events (InputSource.read src w)) (finish (InputSource.read src w))
              Hy 0%nat AdditionService.initial_locals (tick st))
    as (st1 & Hloop & _).
  rewrite Hfin in Hloop.
  unfold AdditionService.try_block, bind. cbv zeta. rewrite Hfin, Hloop.
  assert (Hpow : decimal.pow10_neg_exp (AdditionService.precision self)
                 = Ok (- AdditionService.precision self)).
  { unfold decimal.pow10_neg_exp.
    replace (0 <=? AdditionService.precision self) with true by lia.
    f_equal. lia. }
  rewrite Hpow. cbn [AdditionService.initial_locals AdditionService.total].
  rewrite (quantize_exact 0 (AdditionService.precision self) false 0 0);
    [|unfold decimal.Etiny, decimal.Emin, decimal.prec in *; lia | done | done | lia |].
  - rewrite rescaled_zero. cbn. eauto 10.
  - rewrite !Z.mul_0_l. apply pow10_pos. unfold decimal.prec. lia.
Qed.

Lemma no_item_no_timeout_witness :
  exists r self' st',
    AdditionService.add_from_source late_world (AdditionService.new 2 0)
      silent_source
      {| _cache := ∅; log := []; clock_reads := 5 |} = (Ok (r, self'), st')
    /\ status r = SUCCESS
    /\ result r = Some (decimal.Finite false 0 (- 2))
    /\ processed_count r = 0%nat /\ failed_count r = 0%nat
    /\ error_message r = EmptyString.
Proof.
  apply (no_item_no_timeout late_world (AdditionService.new 2 0) silent_source _
           "Valid").
  - reflexivity.
  - reflexivity.
  - reflexivity.
  - vm_compute. split; discriminate.
Defined.

(** ** The file source *)

Lemma yielded_app (a b : list gen_event) : yielded (a ++ b) = yielded a ++ yielded b.
Proof.
  induction a as [|[v|lvl msg] a IH]; cbn [app yielded]; [done| |done].
  by rewrite IH.
Qed.

Lemma yields_length (evs : list gen_event) : yields evs = length (yielded evs).
Proof.
  induction evs as [|[v|lvl msg] evs IH]; cbn [yields yielded length]; auto.
Qed.

Lemma row_events_shape (column_index : Z) (row_idx : nat) (row : list string) :
  Forall (fun v => v <> EmptyString /\ PyStr.strip v = v)
         (yielded (FileSource.row_events column_index row_idx row))
  /\ (length (yielded (FileSource.row_events column_index row_idx row)) <= 1)%nat.
Proof.
  unfold FileSource.row_events.
  destruct (column_index <? Z.of_nat (length row)); [|by cbn; auto].
  destruct (FileSource.index row column_index) as [cell|]; [|by cbn; auto].
  destruct (String.eqb (PyStr.strip cell) EmptyString) eqn:He; [by cbn; auto|].
  apply String.eqb_neq in He. cbn. split; [|lia].
  constructor; [|done]. split; [done | apply strip_idem].
Qed.

Lemma rows_events_shape (column_index : Z) (rows : list (list string)) :
  forall f : nat -> nat,
  Forall (fun v => v <> EmptyString /\ PyStr.strip v = v)
         (yielded (concat (imap (fun i => FileSource.row_events column_index (f i)) rows)))
  /\ (length (yielded (concat (imap (fun i => FileSource.row_events column_index (f i))
                                    rows)))
      <= length rows)%nat.
Proof.
  induction rows as [|row rows IH]; intros f; [by cbn; auto|].
  cbn [imap concat]. rewrite yielded_app, length_app.
  destruct (row_events_shape column_index (f 0%nat) row) as [H1 H2].
  destruct (IH (f ∘ S)) as [H3 H4]. split.
  - apply Forall_app. split; [done|]. exact H3.
  - cbn [length].
    change (length (yielded (concat (imap
              ((fun i => FileSource.row_events column_index (f i)) ∘ S) rows)))
            <= length rows)%nat in H4.
    lia.
Qed.

(** X14. Whatever reader the name csv is bound to, and also when it is
    unbound, every item that a file source yields is a cell as trimmed by
    strip, and is not empty; and the source yields at most one item per
    row that the reader returns, the header row excepted when it is
    skipped: blank cells and short rows are dropped, never replaced. *)
Theorem file_items_are_trimmed_cells (csv : option csv_reader) (filepath : string)
  (column_index : Z) (skip_header : bool) (w : World) :
  Forall (fun v => v <> EmptyString /\ PyStr.strip v = v)
         (yielded (events (FileSource.read_with csv filepath column_index
                             skip_header w)))
  /\ (yields (events (FileSource.read_with csv filepath column_index
                        skip_header w))
      <= match csv, open_text w (Path.__str__ filepath) with
         | Some reader, Ok text =>
             length (reader text) - (if skip_header then 1 else 0)
         | _, _ => 0
         end)%nat.
Proof.
  unfold FileSource.read_with.
  destruct (open_text w (Path.__str__ filepath)) as [text|[n m]];
    [|by destruct csv; cbn; auto].
  destruct csv as [reader|]; [|by cbn; auto]. cbn [events]. split.
  - apply (rows_events_shape column_index _ (fun i => i)).
  - rewrite yields_length.
    etrans; [apply (rows_events_shape column_index _ (fun i => i))|].
    destruct skip_header; [|lia]. destruct (reader text); cbn; lia.
Qed.

Lemma for_loop_raises_at_once (w : World) (self : AdditionService.t)
  (start_time : Q) (evs : list gen_event) (e : exn)
  (l : AdditionService.locals) (st : Runtime) :
  yields evs = 0%nat ->
  exists st',
    AdditionService.for_loop w self start_time 0 evs (Some e) l st = (Err e, st').
Proof.
  intros Hy.
  destruct (for_loop_no_item w self start_time evs (Some e) Hy 0%nat l st)
    as (st' & H & _).
  eauto.
Qed.

(** X15. A call on a file never returns a sum. When validate_source
    raises, that is when [Path.exists()] raises the error of [os.stat],
    the call raises that error to its caller. Otherwise it returns
    Failure without a value and with zero counts, and leaves the service
    as it was: the source is rejected, or the file does not open, or the
    lookup of the name csv fails; no row is ever read. The message is the
    one of the rejection, or the text of the error of open, after the
    name of its class unless it is a TimeoutError, or that of the
    NameError. *)
Theorem add_from_csv_never_returns_a_sum (w : World) (self : AdditionService.t)
  (filepath : string) (column_index : Z) (skip_header : bool) (st : Runtime) :
  match AdditionService.add_from_csv w self filepath column_index skip_header st,
        FileSource.validate_source filepath w with
  | (Ok (r, self'), _), Ok (accepted, msg) =>
      self' = self
      /\ status r = FAILURE /\ result r = None
      /\ processed_count r = 0%nat /\ failed_count r = 0%nat
      /\ error_message r =
           if accepted then
             match open_text w (Path.__str__ filepath) with
             | Ok _ => "NameError: name 'csv' is not defined"
             | Err (type_name, text) =>
                 if String.eqb type_name "TimeoutError" then text
                 else type_name +:+ ": " +:+ text
             end
           else msg
  | (Err e, _), Err e' => e = e'
  | _, _ => False
  end.
Proof.
  unfold AdditionService.add_from_csv.
  set (src := FileSource.new filepath column_index skip_header).
  assert (Hsame : InputSource.validate_source src w
                  = FileSource.validate_source filepath w) by done.
  rewrite <- Hsame.
  destruct (InputSource.validate_source src w) as [[[|] msg]|e0] eqn:Hacc.
  - rewrite (add_from_source_accepted _ _ _ _ msg) by done. unfold try_except.
    destruct (file_source_never_yields w filepath column_index skip_header)
      as (Hy & e & Hfin & He). fold src in Hy, Hfin.
    unfold AdditionService.try_block, bind. cbv zeta. rewrite Hfin.
    destruct (for_loop_raises_at_once w self (time_time w (clock_reads st))
                (events (InputSource.read src w)) e
                AdditionService.initial_locals (tick st) Hy) as (st1 & ->).
    destruct (handlers_run w self src (time_time w (clock_reads st)) e st1 He)
      as (r & st' & -> & Hs & Hr & Hp & Hf & Hm).
    repeat split; try done.
    rewrite Hm.
    cbn in Hfin. unfold FileSource.read_with, module_csv in Hfin.
    destruct (open_text w (Path.__str__ filepath)) as [text|[n m]];
      injection Hfin as <-; [done|].
    cbn [is_TimeoutError exn_str exn_type_name]. by destruct (String.eqb n _).
  - destruct (add_from_source_rejected w self src st msg Hacc)
      as (r & st' & -> & Hs & Hr & Hp & Hf & Hm).
    repeat split; done.
  - by rewrite (add_from_source_escapes _ _ _ _ e0).
Qed.

Lemma split_chars_none (c : ascii) (l : list ascii) :
  forall cur, PyStr.mem_char c l = false ->
  PyStr.split_chars c cur l = [rev cur ++ l].
Proof.
  unfold PyStr.mem_char.
  induction l as [|x l IH]; intros cur; cbn [existsb PyStr.split_chars].
  - by rewrite app_nil_r.
  - intros [Hx Hl]%orb_false_iff. rewrite Hx, (IH _ Hl). cbn [rev].
    by rewrite <- app_assoc.
Qed.

(** The text of a path that is a plain file name is the name as given. *)
Lemma plain_name_path (filepath : string) :
  filepath <> EmptyString ->
  PyStr.contains "/" filepath = false ->
  Path.__str__ filepath = filepath.
Proof.
  intros Hne Hplain. unfold PyStr.contains in Hplain.
  unfold Path.__str__, Path.root, Path.parts, PyStr.split.
  rewrite (split_chars_none _ _ [] Hplain). cbn [rev app map].
  unfold PyStr.of_chars, PyStr.chars in *.
  rewrite string_of_list_ascii_of_string.
  assert (Hlead : Path.leading_slashes (list_ascii_of_string filepath) = 0%nat).
  { destruct filepath as [|c s]; [done|]. cbn in Hplain |- *.
    apply orb_false_iff in Hplain as [-> _]. done. }
  rewrite Hlead. cbn [List.filter].
  assert (String.eqb filepath EmptyString = false) as -> by by apply String.eqb_neq.
  cbn [negb andb].
  destruct (String.eqb filepath ".") eqn:Hdot; cbn [negb].
  - by apply String.eqb_eq in Hdot.
  - done.
Qed.

(** X16. For a path that is a plain file name, so that the text of the
    path is the name as given: a rejected file is reported with the
    message of the first check that fails, in the order of the checks:
    the path does not exist, the suffix is neither .csv nor .txt in any
    letter case, the file has no byte. *)
Theorem rejected_file_message (w : World) (self : AdditionService.t)
  (filepath : string) (column_index : Z) (skip_header : bool) (st : Runtime)
  (msg : string) :
  filepath <> EmptyString ->
  PyStr.contains "/" filepath = false ->
  FileSource.validate_source filepath w = Ok (false, msg) ->
  (fun out => (status (fst out), error_message (fst out)))
    <$> returned (AdditionService.add_from_csv w self filepath column_index
                    skip_header st)
  = Some (FAILURE,
          if negb (path_exists w filepath) then "File not found: " +:+ filepath
          else if negb (existsb (String.eqb (PyStr.lower (FileSource.suffix filepath)))
                                [".csv"; ".txt"])
               then "Only CSV and TXT files supported"
               else "File is empty").
Proof.
  intros Hne Hplain Hrej. unfold AdditionService.add_from_csv.
  destruct (add_from_source_rejected w self
              (FileSource.new filepath column_index skip_header) st msg Hrej)
    as (r & st' & -> & Hs & _ & _ & _ & Hm).
  unfold returned. cbn [fst fmap option_fmap option_map]. rewrite Hs, Hm.
  unfold FileSource.validate_source in Hrej. cbv zeta in Hrej.
  rewrite (plain_name_path filepath Hne Hplain) in Hrej.
  destruct (stat_error w filepath) as [[n m]|]; [done|].
  revert Hrej.
  destruct (negb (path_exists w filepath)); [by intros [= <-]|].
  destruct (negb (existsb _ _)); [by intros [= <-]|].
  destruct (negb (st_size w filepath >? 0)); [by intros [= <-]|]. done.
Qed.

Lemma rejected_file_message_witness :
  (fun out => (status (fst out), error_message (fst out)))
    <$> returned (AdditionService.add_from_csv csv_world (AdditionService.new 2 30)
                    "notes.md" 0 true initial_runtime)
  = Some (FAILURE, "File not found: notes.md").
Proof.
  apply (rejected_file_message csv_world (AdditionService.new 2 30) "notes.md" 0 true
           initial_runtime "File not found: notes.md").
  - discriminate.
  - reflexivity.
  - reflexivity.
Defined.

(** ** Presentation *)

Lemma upper_failure :
  "Status: " +:+ PyStr.upper (OperationStatus_value FAILURE) = "Status: FAILURE".
Proof. reflexivity. Qed.

(** X17. What is printed for a result that the service returned follows
    its status: a success prints the sum and no error line, a partial
    success prints the sum and then the error line, and a failure prints
    the status line, which therefore always reads Status: FAILURE. *)
Theorem printed_lines_follow_status (str_decimal : decimal.Decimal -> string)
  (w : World) (self self' : AdditionService.t) (src : InputSource.t)
  (st st' : Runtime) (r : OperationResult) :
  AdditionService.add_from_source w self src st = (Ok (r, self'), st') ->
  match status r with
  | SUCCESS =>
      exists d, result r = Some d
        /\ print_result str_decimal r
           = [newline +:+ PyStr.repeat "=" 50; "Sum: " +:+ str_decimal d;
              PyStr.repeat "=" 50 +:+ newline]
  | PARTIAL =>
      exists d, result r = Some d
        /\ print_result str_decimal r
           = [newline +:+ PyStr.repeat "=" 50; "Sum: " +:+ str_decimal d;
              "Errors: " +:+ error_message r; PyStr.repeat "=" 50 +:+ newline]
  | FAILURE =>
      result r = None
      /\ print_result str_decimal r !! 1%nat = Some "Status: FAILURE"
  end.
Proof.
  intros Hcall.
  apply add_from_source_paths in Hcall as [[_ Ht] | (_ & Hs & Hr & _)].
  - apply try_block_result in Ht as (l & st1 & target & q & Hloop & _ & _ & -> & _).
    apply for_loop_errors in Hloop as [Hlen Hall]; [|done|done].
    unfold print_result. cbn [status result error_message].
    unfold final_status, final_result. rewrite <- Hlen.
    destruct (AdditionService.errors l) as [|e es] eqn:He; cbn [length Nat.eqb].
    + exists q. done.
    + apply Forall_cons in Hall as [Hne _].
      assert (Hmsg : String.eqb (PyStr.join "; " (take 5 (e :: es))) EmptyString = false).
      { apply String.eqb_neq. cbn [take]. by apply join_nonempty. }
      rewrite Hmsg.
      destruct (AdditionService.processed l =? 0)%nat.
      * split; [done|]. cbn [app lookup list_lookup]. by rewrite upper_failure.
      * exists q. done.
  - rewrite Hs. split; [done|]. unfold print_result. rewrite Hr, Hs.
    cbn [app lookup list_lookup]. by rewrite upper_failure.
Qed.

Lemma printed_lines_follow_status_witness :
  exists r self' st',
    AdditionService.add_from_source still_world (AdditionService.new 2 30)
      (ListSource.new (PyList [SStr "1"; SStr "x"])) initial_runtime
    = (Ok (r, self'), st')
    /\ match status r with
       | SUCCESS =>
           exists d, result r = Some d
             /\ print_result (fun _ => "1.00") r
                = [newline +:+ PyStr.repeat "=" 50; "Sum: " +:+ "1.00";
                   PyStr.repeat "=" 50 +:+ newline]
       | PARTIAL =>
           exists d, result r = Some d
             /\ print_result (fun _ => "1.00") r
                = [newline +:+ PyStr.repeat "=" 50; "Sum: " +:+ "1.00";
                   "Errors: " +:+ error_message r; PyStr.repeat "=" 50 +:+ newline]
       | FAILURE =>
           result r = None
           /\ print_result (fun _ => "1.00") r !! 1%nat = Some "Status: FAILURE"
       end.
Proof.
  assert (H : exists r self' st',
             AdditionService.add_from_source still_world (AdditionService.new 2 30)
               (ListSource.new (PyList [SStr "1"; SStr "x"])) initial_runtime
             = (Ok (r, self'), st')).
  { do 3 eexists. vm_compute. reflexivity. }
  destruct H as (r & self' & st' & Hr). exists r, self', st'.
  split; [exact Hr|].
  exact (printed_lines_follow_status (fun _ => "1.00") _ _ _ _ _ _ r Hr).
Defined.

(** ** The interactive entries *)

Lemma split_chars_length (c : ascii) (l : list ascii) :
  forall cur, length (PyStr.split_chars c cur l) = S (PyStr.count_char c l).
Proof.
  unfold PyStr.count_char.
  induction l as [|x l IH]; intros cur; cbn [PyStr.split_chars List.filter]; [done|].
  destruct (Ascii.eqb c x); cbn [length]; by rewrite IH.
Qed.

Lemma map_strip_trimmed (l : list string) :
  Forall (fun s => PyStr.strip s = s) (map PyStr.strip l).
Proof.
  induction l as [|s l IH]; cbn [map]; constructor; [apply strip_idem | done].
Qed.

Lemma menu_numbers_length (line : string) :
  length (menu_numbers line)
  = S (PyStr.count_char "," (PyStr.chars (PyStr.strip line))).
Proof.
  unfold menu_numbers, PyStr.split. by rewrite !length_map, split_chars_length.
Qed.

(** X18. The list that choice 2 builds from the typed line has one entry
    more than the trimmed line has commas, so it is never empty, each of
    its entries is trimmed, and the list source made of it is accepted:
    the message List is empty cannot come out of this entry, a blank line
    being the list of one empty string. *)
Theorem menu_list_is_never_empty (line : string) :
  length (menu_numbers line)
  = S (PyStr.count_char "," (PyStr.chars (PyStr.strip line)))
  /\ Forall (fun s => PyStr.strip s = s) (menu_numbers line)
  /\ fst (ListSource.validate_source (PyList (map SStr (menu_numbers line)))) = true
  /\ (PyStr.strip line = EmptyString -> menu_numbers line = [EmptyString]).
Proof.
  split; [apply menu_numbers_length|]. split; [apply map_strip_trimmed|]. split.
  - pose proof (menu_numbers_length line) as Hlen.
    destruct (menu_numbers line); [done|]. done.
  - intros Hblank. unfold menu_numbers. rewrite Hblank. reflexivity.
Qed.

(** A call on a list always returns. *)
Lemma add_numbers_returns (w : World) (self : AdditionService.t)
  (numbers : list scalar) (st : Runtime) :
  exists r self' st',
    AdditionService.add_numbers w self (PyList numbers) st = (Ok (r, self'), st')
    /\ ((processed_count r + failed_count r = length numbers)%nat
        \/ (status r = FAILURE /\ result r = None
            /\ processed_count r = 0%nat /\ failed_count r = 0%nat)).
Proof.
  unfold AdditionService.add_numbers.
  set (src := ListSource.new (PyList numbers)).
  assert (Hret : exists r self' st',
             AdditionService.add_from_source w self src st = (Ok (r, self'), st')).
  { destruct (InputSource.validate_source src w) as [[[|] msg]|e0] eqn:Hv;
      [| |done].
    - rewrite (add_from_source_accepted _ _ _ _ msg) by done. unfold try_except.
      destruct (AdditionService.try_block _ _ _ _ _) as [[[r self']|e] st'] eqn:Ht;
        [by eauto|].
      assert (He : is_Exception e = true).
      { apply try_block_raises in Ht as [?|Hfin]; [done|]. by subst src. }
      destruct (handlers_run w self src (time_time w (clock_reads st)) e st' He)
        as (r & st1 & -> & _). eauto.
    - destruct (add_from_source_rejected w self src st msg Hv)
        as (r & st1 & -> & _).
      eauto. }
  destruct Hret as (r & self' & st' & Hcall). exists r, self', st'.
  split; [done|].
  apply add_from_source_paths in Hcall as [[Hv Ht] | (_ & Hs & Hr & Hp & Hf & _)].
  - left. rewrite (completes_counts w self src st r); [|split; eauto].
    subst src. destruct (list_source_events numbers w) as [-> _].
    rewrite yields_length. clear. induction numbers; cbn; [done|]. cbn in IHnumbers. lia.
  - right. done.
Qed.

(** X19. Choice 2 never raises: for every typed line it prints the
    result of the call on the list built from the line, and the counts of
    that result add up to the number of commas of the trimmed line plus
    one, unless the call was cut short (a timeout, or an arithmetic
    signal), in which case it is a failure with zero counts. *)
Theorem menu_add_list_prints_a_result (w : World)
  (str_decimal : decimal.Decimal -> string) (service : AdditionService.t)
  (line : string) (st : Runtime) :
  exists r service' st',
    AdditionService.add_numbers w service (PyList (map SStr (menu_numbers line))) st
    = (Ok (r, service'), st')
    /\ menu_add_list w str_decimal service line st
       = (Ok (print_result str_decimal r, service'), st')
    /\ ((processed_count r + failed_count r
         = S (PyStr.count_char "," (PyStr.chars (PyStr.strip line))))%nat
        \/ (status r = FAILURE /\ result r = None
            /\ processed_count r = 0%nat /\ failed_count r = 0%nat)).
Proof.
  destruct (add_numbers_returns w service (map SStr (menu_numbers line)) st)
    as (r & service' & st' & Hcall & Hcount).
  exists r, service', st'. split; [done|]. split.
  - unfold menu_add_list, bind. by rewrite Hcall.
  - by rewrite length_map, menu_numbers_length in Hcount.
Qed.

(** X20. The entry for two numbers never reaches its handler: for every
    pair of typed lines it prints the result of the call of a fresh
    service, of precision 2, on the two trimmed lines, never the line
    Error, and the counts of that result add up to two unless the call
    was cut short. *)
Theorem add_two_numbers_prints_a_result (w : World)
  (str_decimal : decimal.Decimal -> string) (line1 line2 : string)
  (st : Runtime) :
  exists r service' st',
    AdditionService.add_numbers w (AdditionService.new 2 30)
      (PyList [SStr (PyStr.strip line1); SStr (PyStr.strip line2)]) st
    = (Ok (r, service'), st')
    /\ add_two_numbers w str_decimal line1 line2 st
       = (Ok (print_result str_decimal r), st')
    /\ ((processed_count r + failed_count r = 2)%nat
        \/ (status r = FAILURE /\ result r = None
            /\ processed_count r = 0%nat /\ failed_count r = 0%nat)).
Proof.
  destruct (add_numbers_returns w (AdditionService.new 2 30)
              [SStr (PyStr.strip line1); SStr (PyStr.strip line2)] st)
    as (r & service' & st' & Hcall & Hcount).
  exists r, service', st'. split; [done|]. split; [|done].
  unfold add_two_numbers, try_except, bind. cbv zeta. by rewrite Hcall.
Qed.
